(** * Shallow embedding of taskhelper's process runner

    Sources: [src/command.rs] (the [XCommandBuilder], [XCommand::spawn],
    [XCommand::exec] and the [XChildHandle::stream] multiplexer) and the
    synchronous [run] / exit path of [src/main.rs]. *)

From Stdlib Require Import List String Ascii ZArith Bool Lia.
Import ListNotations.
Open Scope Z_scope.

(* ------------------------------------------------------------------ *)
(** ** Rust results with panics *)

(** An [eyre::Report], classified by the place that raised it. *)
Inductive Report : Type :=
| CStringError (s : string)        (* bail!("Unable to create CString from ...") *)
| PtyError                         (* openpty(..)? *)
| ForkError                        (* bail!("fork() failed") / "Fork failed" *)
| WaitError                        (* bail!("waitpid failed: ..") *)
| UnexpectedWaitStatus             (* bail!("Unexpected wait status: ..") *)
| ExecError                        (* bail!("Unable to execve ..") *)
| CloseError                       (* close(..)? *)
| CurrentDirError                  (* env::current_dir()? in find_project *)
| NoFilterAllowed (cmd : string)   (* bail!("Subcommand '{}' does not allow preceding filters") *)
| ProjectFilterWithProject         (* bail!("Usage error: project filter cannot be provided ..") *)
| TaskNotFound                     (* bail!("Unable to find taskwarrior ('task') on the $PATH") *)
| CanonicalizeError                (* fs::canonicalize(..)? *)
| TaskVersionError.                (* task_version(..)? *)

(** A computation of type [Result<A>] that may also panic (an [unwrap]
    on an error, or an explicit [panic!]). *)
Inductive Outcome (A : Type) : Type :=
| Done (a : A)
| Fail (e : Report)
| Panicked.
Arguments Done {A} a.
Arguments Fail {A} e.
Arguments Panicked {A}.

Definition obind {A B} (m : Outcome A) (k : A -> Outcome B) : Outcome B :=
  match m with
  | Done a => k a
  | Fail e => Fail e
  | Panicked => Panicked
  end.

(** [x <- m ;; k] is Rust's [let x = m?; k]. *)
Notation "x <- m ;; k" := (obind m (fun x => k))
  (at level 61, m at next level, right associativity).

(* ------------------------------------------------------------------ *)
(** ** C strings *)

Fixpoint has_nul (s : string) : bool :=
  match s with
  | EmptyString => false
  | String c s' => Ascii.eqb c Ascii.zero || has_nul s'
  end.

(** [CString::new]: fails exactly when the bytes contain an interior NUL. *)
Definition cstring_new (s : string) : option string :=
  if has_nul s then None else Some s.

(** [path_to_cstring]: [CString::new(bytes).unwrap()]. *)
Definition path_to_cstring (p : string) : Outcome string :=
  match cstring_new p with
  | Some c => Done c
  | None => Panicked
  end.

(* ------------------------------------------------------------------ *)
(** ** Commands and the builder *)

Record EnvVar := { key : string; value : string }.

Record XCommand := {
  command : string;
  args : list string;
  env : list EnvVar
}.

Record XCommandBuilder := {
  b_command : string;
  b_args : list string;
  b_env : list EnvVar
}.

(** [XCommandBuilder::new] (also [XCommand::builder]). *)
Definition builder_new (p : string) : Outcome XCommandBuilder :=
  c <- path_to_cstring p ;;
  Done {| b_command := c; b_args := []; b_env := [] |}.

(** [XCommandBuilder::arg]: pushes one argument. *)
Definition builder_arg (b : XCommandBuilder) (a : string) : Outcome XCommandBuilder :=
  match cstring_new a with
  | None => Fail (CStringError a)
  | Some c => Done {| b_command := b_command b; b_args := b_args b ++ [c];
                      b_env := b_env b |}
  end.

(** The loop of [XCommandBuilder::args]: converts every argument, bailing
    at the first one that is not a valid C string. *)
Fixpoint cstr_args (l : list string) : Outcome (list string) :=
  match l with
  | [] => Done []
  | a :: l' =>
      match cstring_new a with
      | None => Fail (CStringError a)
      | Some c => r <- cstr_args l' ;; Done (c :: r)
      end
  end.

(** [XCommandBuilder::args]: replaces the argument list. *)
Definition builder_args (b : XCommandBuilder) (l : list string) : Outcome XCommandBuilder :=
  r <- cstr_args l ;;
  Done {| b_command := b_command b; b_args := r; b_env := b_env b |}.

(** [XCommandBuilder::build]. *)
Definition build (b : XCommandBuilder) : XCommand :=
  {| command := b_command b; args := b_args b; env := b_env b |}.

(* ------------------------------------------------------------------ *)
(** ** Signals and wait statuses (nix, Linux numbering) *)

Inductive Signal : Type :=
| SIGHUP | SIGINT | SIGQUIT | SIGILL | SIGTRAP | SIGABRT | SIGBUS | SIGFPE
| SIGKILL | SIGUSR1 | SIGSEGV | SIGUSR2 | SIGPIPE | SIGALRM | SIGTERM
| SIGSTKFLT | SIGCHLD | SIGCONT | SIGSTOP | SIGTSTP | SIGTTIN | SIGTTOU
| SIGURG | SIGXCPU | SIGXFSZ | SIGVTALRM | SIGPROF | SIGWINCH | SIGIO
| SIGPWR | SIGSYS.

(** [signal as i32]. *)
Definition signal_to_i32 (s : Signal) : Z :=
  match s with
  | SIGHUP => 1 | SIGINT => 2 | SIGQUIT => 3 | SIGILL => 4 | SIGTRAP => 5
  | SIGABRT => 6 | SIGBUS => 7 | SIGFPE => 8 | SIGKILL => 9 | SIGUSR1 => 10
  | SIGSEGV => 11 | SIGUSR2 => 12 | SIGPIPE => 13 | SIGALRM => 14
  | SIGTERM => 15 | SIGSTKFLT => 16 | SIGCHLD => 17 | SIGCONT => 18
  | SIGSTOP => 19 | SIGTSTP => 20 | SIGTTIN => 21 | SIGTTOU => 22
  | SIGURG => 23 | SIGXCPU => 24 | SIGXFSZ => 25 | SIGVTALRM => 26
  | SIGPROF => 27 | SIGWINCH => 28 | SIGIO => 29 | SIGPWR => 30
  | SIGSYS => 31
  end.

Definition Pid := Z.

(** [nix::sys::wait::WaitStatus]. *)
Inductive WaitStatus : Type :=
| Exited (pid : Pid) (code : Z)
| Signaled (pid : Pid) (sig : Signal) (core_dumped : bool)
| Stopped (pid : Pid) (sig : Signal)
| PtraceEvent (pid : Pid) (sig : Signal) (ev : Z)
| PtraceSyscall (pid : Pid)
| Continued (pid : Pid)
| StillAlive.

(** [XStatus]: declared in command.rs, never constructed by the code. *)
Inductive XStatus : Type :=
| XExited (code : Z)
| XSignaled (sig : Signal).

(* ------------------------------------------------------------------ *)
(** ** The output multiplexer of [XChildHandle::stream] *)

Inductive StdioType : Type := Stdout | Stderr.

Definition stdio_eqb (a b : StdioType) : bool :=
  match a, b with
  | Stdout, Stdout | Stderr, Stderr => true
  | _, _ => false
  end.

Inductive Poll (A : Type) : Type :=
| Pending
| Ready (a : A).
Arguments Pending {A}.
Arguments Ready {A} a.

(** One poll of [LinesStream::next] on a master descriptor: no data yet,
    one decoded line, or an I/O / UTF-8 error ([Some(Err(_))]).  A reader
    is the finite script of what successive polls observe; the empty
    script is end of file ([None]). *)
Inductive LineRead : Type :=
| RPending
| RLine (s : string)
| RErr.

Definition Reader := list LineRead.

(** One poll of the inner [stream!] that wraps a reader:
    [while let Some(Ok(item)) = reader.next().await { yield item; }].
    [Ready None] means the inner stream has ended. *)
Definition poll_lines (r : Reader) : Poll (option string) * Reader :=
  match r with
  | [] => (Ready None, [])
  | RPending :: r' => (Pending, r')
  | RLine s :: r' => (Ready (Some s), r')
  | RErr :: r' => (Ready None, r')
  end.

(** [StreamMap<StdioType, _>]: entries in polling order.  tokio starts
    each poll at a random index; the model fixes the start at the first
    entry. *)
Definition StreamMap := list (StdioType * Reader).

(** [StreamMap::poll_next]: the first entry that yields wins; entries that
    end are removed; an empty map is [Ready None], otherwise [Pending]. *)
Fixpoint map_next (m : StreamMap) : Poll (option (StdioType * string)) * StreamMap :=
  match m with
  | [] => (Ready None, [])
  | (k, r) :: m' =>
      match poll_lines r with
      | (Ready (Some s), r') => (Ready (Some (k, s)), (k, r') :: m')
      | (Ready None, _) => map_next m'
      | (Pending, r') =>
          match map_next m' with
          | (Ready None, m'') => (Pending, (k, r') :: m'')
          | (p, m'') => (p, (k, r') :: m'')
          end
      end
  end.

(** The [spawn_blocking] task running [waitpid(child_pid, None)]: it stays
    pending for [join_wait] polls and then resolves.  [wait_result] is
    [None] when [waitpid] failed: the task panics and the [JoinHandle]
    yields a [JoinError]. *)
Record JoinHandle := {
  join_wait : nat;
  wait_result : option WaitStatus
}.

(** What the stream does: yield an item ([Ok((tag, line))]; the code never
    yields an [Err]) or close a descriptor. *)
Inductive Event : Type :=
| EYield (k : StdioType) (s : string)
| EClose (fd : Z).

(** How the generator ends. *)
Inductive End : Type :=
| Returned
| PanickedEnd
| OutOfFuel.

(** One [tokio::select!] with [biased;]: the [Some(output) = map.next()]
    branch is polled first; when it is pending or its pattern fails
    ([None]) the join branch is polled. *)
Inductive SelectOutcome : Type :=
| SelOutput (k : StdioType) (s : string) (m' : StreamMap)
| SelExit (res : option WaitStatus) (m' : StreamMap)
| SelPending (m' : StreamMap) (j' : JoinHandle).

Definition select_biased (m : StreamMap) (j : JoinHandle) : SelectOutcome :=
  match map_next m with
  | (Ready (Some (k, s)), m') => SelOutput k s m'
  | (_, m') =>
      match join_wait j with
      | O => SelExit (wait_result j) m'
      | S n => SelPending m' {| join_wait := n; wait_result := wait_result j |}
      end
  end.

(** [while let Some(output) = map.next().await { yield Ok(output); }]. *)
Fixpoint drain (fuel : nat) (m : StreamMap) : list Event * bool :=
  match fuel with
  | O => ([], false)
  | S f =>
      match map_next m with
      | (Ready (Some (k, s)), m') =>
          let '(tr, ok) := drain f m' in (EYield k s :: tr, ok)
      | (Ready None, _) => ([], true)
      | (Pending, m') => drain f m'
      end
  end.

(** The final [match status]: [Exited] and [Signaled] return (ending the
    stream without yielding anything), any other status panics. *)
Definition status_end (ws : WaitStatus) : End :=
  match ws with
  | Exited _ _ => Returned
  | Signaled _ _ _ => Returned
  | _ => PanickedEnd
  end.

Definition prepend (e : Event) (r : list Event * End) : list Event * End :=
  (e :: fst r, snd r).

(** The [loop { tokio::select! { .. } }] of [XChildHandle::stream]. *)
Fixpoint mux_loop (fuel : nat) (out_fd err_fd : Z) (m : StreamMap) (j : JoinHandle)
  : list Event * End :=
  match fuel with
  | O => ([], OutOfFuel)
  | S f =>
      match select_biased m j with
      | SelOutput k s m' => prepend (EYield k s) (mux_loop f out_fd err_fd m' j)
      | SelExit None _ => ([], PanickedEnd)          (* status.unwrap() *)
      | SelExit (Some ws) m' =>
          let '(tr, ok) := drain f m' in
          if ok then (tr ++ [EClose out_fd; EClose err_fd], status_end ws)
          else (tr, OutOfFuel)
      | SelPending m' j' => mux_loop f out_fd err_fd m' j'
      end
  end.

Record XChildHandle := {
  pid : Pid;
  stdout : Z;
  stderr : Z
}.

(** The environment a stream runs in: the scripts of the two master
    descriptors and the exit watcher.  They are taken as given and
    independent of one another, so results over [StreamEnv] describe the
    loop's own logic for whatever it observes.  What the child can make it
    observe (for instance a child blocked on a pty nobody reads, whose
    [waitpid] never returns) is modelled by [Session] below. *)
Record StreamEnv := {
  out_reader : Reader;
  err_reader : Reader;
  watcher : JoinHandle
}.

Definition entry_size (e : StdioType * Reader) : nat := S (List.length (snd e)).

Definition msize (m : StreamMap) : nat := fold_right (fun e n => (entry_size e + n)%nat) O m.

Definition initial_map (e : StreamEnv) : StreamMap :=
  [(Stdout, out_reader e); (Stderr, err_reader e)].

(** Every poll consumes part of the scripts or of the watcher's delay, so
    this much fuel runs the loop to its end. *)
Definition stream_fuel (e : StreamEnv) : nat :=
  (msize (initial_map e) + join_wait (watcher e) + 2)%nat.

(** [XChildHandle::stream], driven to completion. *)
Definition stream (h : XChildHandle) (e : StreamEnv) : list Event * End :=
  mux_loop (stream_fuel e) (stdout h) (stderr h) (initial_map e) (watcher e).

(** The items the consumer receives. *)
Fixpoint yielded (tr : list Event) : list (StdioType * string) :=
  match tr with
  | [] => []
  | EYield k s :: tr' => (k, s) :: yielded tr'
  | EClose _ :: tr' => yielded tr'
  end.

(** The lines a reader still delivers: up to its first failed read. *)
Fixpoint lines_of (r : Reader) : list string :=
  match r with
  | [] => []
  | RPending :: r' => lines_of r'
  | RLine s :: r' => s :: lines_of r'
  | RErr :: _ => []
  end.

(** The lines still to come from the entries tagged [k]. *)
Definition all_lines (k : StdioType) (m : StreamMap) : list string :=
  flat_map (fun e => if stdio_eqb k (fst e) then lines_of (snd e) else []) m.

(** The consumer's items with tag [k], in order. *)
Definition tag_lines (k : StdioType) (ys : list (StdioType * string)) : list string :=
  map snd (filter (fun y => stdio_eqb k (fst y)) ys).

Definition yield_events (ys : list (StdioType * string)) : list Event :=
  map (fun y => EYield (fst y) (snd y)) ys.

(* ------------------------------------------------------------------ *)
(** ** Descriptors, ptys, fork and exec *)

(** What a descriptor refers to. *)
Inductive FileObj : Type :=
| PtyMaster (n : nat)
| PtySlave (n : nat)
| Inherited (fd : Z).

Definition FdTable := list (Z * FileObj).

Fixpoint fd_lookup (t : FdTable) (fd : Z) : option FileObj :=
  match t with
  | [] => None
  | (fd', o) :: t' => if Z.eqb fd fd' then Some o else fd_lookup t' fd
  end.

Fixpoint fd_remove (t : FdTable) (fd : Z) : FdTable :=
  match t with
  | [] => []
  | (fd', o) :: t' => if Z.eqb fd fd' then fd_remove t' fd else (fd', o) :: fd_remove t' fd
  end.

(** [close(fd)]: [EBADF] on a descriptor that is not open. *)
Definition fd_close (t : FdTable) (fd : Z) : option FdTable :=
  match fd_lookup t fd with
  | Some _ => Some (fd_remove t fd)
  | None => None
  end.

(** [dup2(old, new)]. *)
Definition fd_dup2 (t : FdTable) (old new : Z) : option FdTable :=
  match fd_lookup t old with
  | Some o => Some ((new, o) :: fd_remove t new)
  | None => None
  end.

(** [.unwrap()] / [.expect(..)] on a system call. *)
Definition unwrap {A} (r : option A) : Outcome A :=
  match r with
  | Some a => Done a
  | None => Panicked
  end.

(** [?] on a system call. *)
Definition try_sys {A} (r : option A) (e : Report) : Outcome A :=
  match r with
  | Some a => Done a
  | None => Fail e
  end.

Record Sys := {
  sys_fds : FdTable;        (* the calling process's descriptors *)
  sys_next_fd : Z;          (* next descriptor number handed out *)
  sys_next_pty : nat;       (* id of the next pty pair *)
  sys_ptys_left : nat;      (* pty pairs the system can still allocate *)
  sys_fork_ok : bool;       (* whether fork() succeeds *)
  sys_next_pid : Pid;       (* pid the next child gets *)
  sys_exes : list string    (* paths execve can load *)
}.

Definition set_fds (s : Sys) (t : FdTable) : Sys :=
  {| sys_fds := t; sys_next_fd := sys_next_fd s; sys_next_pty := sys_next_pty s;
     sys_ptys_left := sys_ptys_left s; sys_fork_ok := sys_fork_ok s;
     sys_next_pid := sys_next_pid s; sys_exes := sys_exes s |}.

Definition bump_pid (s : Sys) : Sys :=
  {| sys_fds := sys_fds s; sys_next_fd := sys_next_fd s; sys_next_pty := sys_next_pty s;
     sys_ptys_left := sys_ptys_left s; sys_fork_ok := sys_fork_ok s;
     sys_next_pid := sys_next_pid s + 1; sys_exes := sys_exes s |}.

(** [openpty(..)]: a fresh (master, slave) pair. *)
Definition openpty (s : Sys) : option (Z * Z * Sys) :=
  match sys_ptys_left s with
  | O => None
  | S avail =>
      let m := sys_next_fd s in
      let n := sys_next_pty s in
      Some (m, m + 1,
            {| sys_fds := (m + 1, PtySlave n) :: (m, PtyMaster n) :: sys_fds s;
               sys_next_fd := m + 2; sys_next_pty := S n; sys_ptys_left := avail;
               sys_fork_ok := sys_fork_ok s; sys_next_pid := sys_next_pid s;
               sys_exes := sys_exes s |})
  end.

(** What became of a forked child. *)
Inductive ChildRun : Type :=
| ChildImage (path : string) (argv envp : list string) (fds : FdTable)
    (* execve replaced the image: it runs [path] on these descriptors *)
| ChildExit (code : Z)    (* std::process::exit(code) *)
| ChildPanic.             (* an unwrap failed in the child *)

(** The [map] closure of [XCommand::exec]: [key=value], then
    [CString::new(formatted).unwrap()]. *)
Definition format_env (v : EnvVar) : Outcome string :=
  unwrap (cstring_new (key v ++ "=" ++ value v)).

Fixpoint format_envs (l : list EnvVar) : Outcome (list string) :=
  match l with
  | [] => Done []
  | v :: l' => f <- format_env v ;; r <- format_envs l' ;; Done (f :: r)
  end.

(** [XCommand::exec], run in the child on descriptor table [t]: execve
    either replaces the image or reports an error. *)
Definition exec (exes : list string) (c : XCommand) (t : FdTable) : Outcome ChildRun :=
  let argv := command c :: args c in
  envp <- format_envs (env c) ;;
  if existsb (String.eqb (command c)) exes
  then Done (ChildImage (command c) argv envp t)
  else Fail ExecError.

(** The [ForkResult::Child] branch of [XCommand::spawn]. *)
Definition spawn_child (s : Sys) (c : XCommand) (om osl em esl : Z) : ChildRun :=
  let r :=
    t1 <- unwrap (fd_close (sys_fds s) om) ;;
    t2 <- unwrap (fd_close t1 em) ;;
    t3 <- unwrap (fd_dup2 t2 osl 1) ;;
    t4 <- unwrap (fd_dup2 t3 esl 2) ;;
    exec (sys_exes s) c t4 in
  match r with
  | Done run => run
  | Fail _ => ChildExit 1        (* error!("failed to exec: .."); std::process::exit(1) *)
  | Panicked => ChildPanic
  end.

(** [XCommand::spawn]: the parent's result, its system state afterwards,
    and the child it forked (if any). *)
Definition spawn (s : Sys) (c : XCommand) : Outcome XChildHandle * Sys * option (Pid * ChildRun) :=
  match openpty s with
  | None => (Fail PtyError, s, None)
  | Some (om, osl, s1) =>
      match openpty s1 with
      | None => (Fail PtyError, s1, None)
      | Some (em, esl, s2) =>
          if negb (sys_fork_ok s2) then (Fail ForkError, s2, None) else
          let child := sys_next_pid s2 in
          let kid := Some (child, spawn_child s2 c om osl em esl) in
          match unwrap (fd_close (sys_fds s2) osl) with
          | Done t1 =>
              match unwrap (fd_close t1 esl) with
              | Done t2 =>
                  (Done {| pid := child; stdout := om; stderr := em |},
                   bump_pid (set_fds s2 t2), kid)
              | Fail e => (Fail e, bump_pid s2, kid)
              | Panicked => (Panicked, bump_pid s2, kid)
              end
          | Fail e => (Fail e, bump_pid s2, kid)
          | Panicked => (Panicked, bump_pid s2, kid)
          end
      end
  end.

(** [XCommand::builder(p).args(l)?.build().spawn()]. *)
Definition spawn_command (s : Sys) (p : string) (l : list string)
  : Outcome XChildHandle * Sys * option (Pid * ChildRun) :=
  match (b <- builder_new p ;; builder_args b l) with
  | Done b => spawn s (build b)
  | Fail e => (Fail e, s, None)
  | Panicked => (Panicked, s, None)
  end.

(** The status [waitpid] reports for a child that ended on its own. *)
Definition child_status (kid : Pid * ChildRun) : option WaitStatus :=
  match snd kid with
  | ChildExit c => Some (Exited (fst kid) c)
  | ChildPanic => Some (Exited (fst kid) 101)
  | ChildImage _ _ _ _ => None
  end.

(* ------------------------------------------------------------------ *)
(** ** The synchronous [run] of main.rs *)

Record CommandResult := {
  cr_stdout : string;
  cr_stderr : string;
  code : Z
}.

(** The [match waitpid(child, None)] of [run]; [None] is a failed
    [waitpid]. *)
Definition run_code (r : option WaitStatus) : Outcome Z :=
  match r with
  | None => Fail WaitError
  | Some (Exited _ c) => Done c
  | Some (Signaled _ sig _) => Done (signal_to_i32 sig)
  | Some (Stopped _ sig) => Done (signal_to_i32 sig)
  | Some _ => Fail UnexpectedWaitStatus
  end.

(** What reaches the slave side of pty [n] from a process with descriptor
    table [t] that performs the writes [ws] (descriptor, bytes). *)
Fixpoint pty_output (t : FdTable) (n : nat) (ws : list (Z * string)) : string :=
  match ws with
  | [] => ""
  | (fd, s) :: ws' =>
      match fd_lookup t fd with
      | Some (PtySlave n') => if Nat.eqb n n' then s else ""
      | _ => ""
      end ++ pty_output t n ws'
  end.

(** The output processing of the pty: [openpty(&Some(winsize), None)]
    leaves the default termios, whose [OPOST | ONLCR] turns every "\n"
    written to the slave into "\r\n" on the master side. *)
Fixpoint onlcr (s : string) : string :=
  match s with
  | EmptyString => EmptyString
  | String c s' =>
      if Ascii.eqb c "010"%char then String "013"%char (String c (onlcr s'))
      else String c (onlcr s')
  end.

Definition byte_in (c : ascii) (lo hi : nat) : bool :=
  Nat.leb lo (nat_of_ascii c) && Nat.leb (nat_of_ascii c) hi.

Definition is_cont (c : ascii) : bool := byte_in c 128 191.

(** [std::str::from_utf8] succeeds: well-formed UTF-8 (no overlong forms,
    no surrogates, nothing above U+10FFFF). *)
Fixpoint utf8_valid (s : string) : bool :=
  match s with
  | EmptyString => true
  | String c s1 =>
      if Nat.ltb (nat_of_ascii c) 128 then utf8_valid s1
      else if byte_in c 194 223 then
        match s1 with
        | String c2 s2 => is_cont c2 && utf8_valid s2
        | EmptyString => false
        end
      else if byte_in c 224 239 then
        match s1 with
        | String c2 (String c3 s3) =>
            (if Nat.eqb (nat_of_ascii c) 224 then byte_in c2 160 191
             else if Nat.eqb (nat_of_ascii c) 237 then byte_in c2 128 159
             else is_cont c2) && is_cont c3 && utf8_valid s3
        | _ => false
        end
      else if byte_in c 240 244 then
        match s1 with
        | String c2 (String c3 (String c4 s4)) =>
            (if Nat.eqb (nat_of_ascii c) 240 then byte_in c2 144 191
             else if Nat.eqb (nat_of_ascii c) 244 then byte_in c2 128 143
             else is_cont c2) && is_cont c3 && is_cont c4 && utf8_valid s4
        | _ => false
        end
      else false
  end.

(** [let _ = f.read_to_string(&mut buffer)] on bytes that end in an error
    (the master reads [EIO] once no process holds the slave): the standard
    library keeps what it read when it is valid UTF-8 and otherwise leaves
    [buffer] empty; the error itself is ignored. *)
Definition read_to_string (bytes : string) : string :=
  if utf8_valid bytes then bytes else "".

(** The world [run] executes in: the system, what the executed program
    writes before it stops or ends, and what [waitpid] reports for it.
    The parent reads only after [waitpid] has returned, so a program that
    writes more than the pty buffers blocks and never gets that far; such
    runs have no [RunEnv] ([r_writes] are writes the program completed).
    Processes the program leaves behind are not modelled. *)
Record RunEnv := {
  r_sys : Sys;
  r_writes : list (Z * string);
  r_wait : option WaitStatus
}.

(** The [ForkResult::Child] branch of [run] before [cmd.exec()]: the
    slave is duplicated onto stdin, stdout and stderr. *)
Definition run_child_fds (t : FdTable) (slave : Z) : Outcome FdTable :=
  t0 <- unwrap (fd_dup2 t slave 0) ;;
  t1 <- unwrap (fd_dup2 t0 slave 1) ;;
  unwrap (fd_dup2 t1 slave 2).

(** Whether the child is still alive once [waitpid] has reported [r]: only
    [Exited] and [Signaled] report a dead child. *)
Definition child_alive (r : option WaitStatus) : bool :=
  match r with
  | Some (Exited _ _) | Some (Signaled _ _ _) => false
  | _ => true
  end.

(** [read_to_string] on the master.  [None]: it never returns, because a
    live child still holds the slave, so the master never reports end of
    file.  Otherwise the child's writes through the slave, translated by
    the pty, kept when they are valid UTF-8. *)
Definition read_master (parent : FdTable) (master : Z) (child : Outcome FdTable)
    (ws : list (Z * string)) (alive : bool) : option string :=
  match fd_lookup parent master, child with
  | Some (PtyMaster n), Done t =>
      if alive then None else Some (read_to_string (onlcr (pty_output t n ws)))
  | _, _ => Some ""%string
  end.

(** [run(exec, args)] as seen by the parent; [None] when it never
    returns. *)
Definition run (e : RunEnv) (exe : string) (argv : list string) : option (Outcome CommandResult) :=
  match openpty (r_sys e) with
  | None => Some (Fail PtyError)
  | Some (master, slave, s1) =>
      if negb (sys_fork_ok s1) then Some (Fail ForkError) else
      let child := run_child_fds (sys_fds s1) slave in
      match (t <- try_sys (fd_close (sys_fds s1) slave) CloseError ;;
             c <- run_code (r_wait e) ;; Done (t, c)) with
      | Done (t, c) =>
          match read_master t master child (r_writes e) (child_alive (r_wait e)) with
          | Some buffer => Some (Done {| cr_stdout := buffer; cr_stderr := "TODO"; code := c |})
          | None => None
          end
      | Fail x => Some (Fail x)
      | Panicked => Some Panicked
      end
  end.

(** The end of [main]: [let res = run(..)?; print!(..);
    std::process::exit(res.code)].  An [Err] returned from [main] exits
    with status 1, a panic with 101; [None]: [main] never exits. *)
Definition main_exit (r : option (Outcome CommandResult)) : option Z :=
  match r with
  | None => None
  | Some (Done res) => Some (code res)
  | Some (Fail _) => Some 1
  | Some Panicked => Some 101
  end.

(* ------------------------------------------------------------------ *)
(** ** Concrete values used in the examples *)

(** The concrete handle used in the examples below: the child is pid 100,
    its stdout master is descriptor 3 and its stderr master is 5. *)
Definition demo_handle : XChildHandle := {| pid := 100; stdout := 3; stderr := 5 |}.

Definition demo_sys : Sys :=
  {| sys_fds := [(0, Inherited 0); (1, Inherited 1); (2, Inherited 2)];
     sys_next_fd := 3; sys_next_pty := 0; sys_ptys_left := 4; sys_fork_ok := true;
     sys_next_pid := 100; sys_exes := ["/usr/bin/task"%string] |}.

(** The output of several writes, concatenated. *)
Definition merged_output (ws : list (Z * string)) : string :=
  fold_right (fun w acc => (snd w ++ acc)%string) ""%string ws.

Definition is_exit_or_signal (ws : WaitStatus) : bool :=
  match ws with
  | Exited _ _ | Signaled _ _ _ => true
  | _ => false
  end.

(* ------------------------------------------------------------------ *)
(** ** [XChildHandle::stream] with the child running beside it

    [StreamEnv] above takes what each poll of a master observes, and when
    the watcher resolves, as given and independent of each other; it
    covers the loop's own logic.  Here both come from the child: it writes
    its lines into the two ptys, each of which holds at most [cap] unread
    lines (a write to a full pty blocks the child), and then ends with a
    wait status.  [waitpid] returns only once the child has written
    everything, and a master reads end of file only once the child is dead
    and that pty is empty.  A schedule interleaves the child, the
    [spawn_blocking] watcher and the stream itself; lines are written,
    buffered and read whole. *)

(** A line as the reader sees it: decoded, or a failed read
    ([Some(Err(_))], e.g. invalid UTF-8). *)
Inductive PtyLine : Type :=
| LOk (s : string)
| LBad.

(** Where the stream is: in its [select!] loop, in the drain after the
    join branch got [ws], or ended. *)
Inductive Phase : Type :=
| PLoop
| PDrain (ws : WaitStatus)
| PEnd (e : End).

Record Session := {
  todo : list (StdioType * PtyLine);  (* what the child has still to write, and where *)
  child_end : WaitStatus;             (* how the child ends once that is written *)
  out_buf : list PtyLine;             (* unread lines of the stdout pty *)
  err_buf : list PtyLine;             (* unread lines of the stderr pty *)
  readers : list StdioType;           (* the entries left in the StreamMap *)
  watched : option WaitStatus;        (* what waitpid returned, once it has *)
  phase : Phase;
  trace : list Event                  (* what the stream has done, in order *)
}.

Definition buf (st : Session) (k : StdioType) : list PtyLine :=
  match k with
  | Stdout => out_buf st
  | Stderr => err_buf st
  end.

Definition set_buf (st : Session) (k : StdioType) (b : list PtyLine) : Session :=
  match k with
  | Stdout =>
      {| todo := todo st; child_end := child_end st; out_buf := b; err_buf := err_buf st;
         readers := readers st; watched := watched st; phase := phase st; trace := trace st |}
  | Stderr =>
      {| todo := todo st; child_end := child_end st; out_buf := out_buf st; err_buf := b;
         readers := readers st; watched := watched st; phase := phase st; trace := trace st |}
  end.

Definition set_todo (st : Session) (t : list (StdioType * PtyLine)) : Session :=
  {| todo := t; child_end := child_end st; out_buf := out_buf st; err_buf := err_buf st;
     readers := readers st; watched := watched st; phase := phase st; trace := trace st |}.

Definition set_watched (st : Session) (w : option WaitStatus) : Session :=
  {| todo := todo st; child_end := child_end st; out_buf := out_buf st; err_buf := err_buf st;
     readers := readers st; watched := w; phase := phase st; trace := trace st |}.

Definition with_parent (st : Session) (ks : list StdioType) (ph : Phase) (tr : list Event) : Session :=
  {| todo := todo st; child_end := child_end st; out_buf := out_buf st; err_buf := err_buf st;
     readers := ks; watched := watched st; phase := ph; trace := tr |}.

(** The child writes its next line, unless that pty is full. *)
Definition child_step (cap : nat) (st : Session) : Session :=
  match todo st with
  | [] => st
  | (k, l) :: rest =>
      if Nat.ltb (List.length (buf st k)) cap
      then set_todo (set_buf st k (buf st k ++ [l])) rest
      else st
  end.

(** The child has ended and is dead (no longer holds the slaves). *)
Definition child_dead (st : Session) : bool :=
  match todo st with
  | [] => is_exit_or_signal (child_end st)
  | _ :: _ => false
  end.

(** The [spawn_blocking] task: [waitpid(child_pid, None)] returns once the
    child has written everything. *)
Definition watcher_step (st : Session) : Session :=
  match todo st, watched st with
  | [], None => set_watched st (Some (child_end st))
  | _, _ => st
  end.

(** One poll of the inner [stream!] reading pty [k]: the next line, the end
    of that inner stream on a failed read or at end of file, or pending. *)
Definition poll_pty (st : Session) (k : StdioType) : Poll (option string) * Session :=
  match buf st k with
  | LOk s :: b => (Ready (Some s), set_buf st k b)
  | LBad :: b => (Ready None, set_buf st k b)
  | [] => if child_dead st then (Ready None, st) else (Pending, st)
  end.

(** [StreamMap::poll_next] over the entries [ks], as [map_next]. *)
Fixpoint pmap_next (ks : list StdioType) (st : Session)
  : Poll (option (StdioType * string)) * list StdioType * Session :=
  match ks with
  | [] => (Ready None, [], st)
  | k :: ks' =>
      match poll_pty st k with
      | (Ready (Some s), st1) => (Ready (Some (k, s)), k :: ks', st1)
      | (Ready None, st1) => pmap_next ks' st1
      | (Pending, st1) =>
          match pmap_next ks' st1 with
          | (Ready None, ks'', st2) => (Pending, k :: ks'', st2)
          | (p, ks'', st2) => (p, k :: ks'', st2)
          end
      end
  end.

(** One step of the stream: one [select!] of its loop (the map first, then
    the join handle), or one poll of its drain loop; after the drain it
    closes both masters and ends as [status_end] says. *)
Definition parent_step (h : XChildHandle) (st : Session) : Session :=
  match phase st with
  | PLoop =>
      match pmap_next (readers st) st with
      | (Ready (Some (k, s)), ks, st1) => with_parent st1 ks PLoop (trace st ++ [EYield k s])
      | (_, ks, st1) =>
          match watched st1 with
          | Some ws => with_parent st1 ks (PDrain ws) (trace st)
          | None => with_parent st1 ks PLoop (trace st)
          end
      end
  | PDrain ws =>
      match pmap_next (readers st) st with
      | (Ready (Some (k, s)), ks, st1) => with_parent st1 ks (PDrain ws) (trace st ++ [EYield k s])
      | (Ready None, ks, st1) =>
          with_parent st1 ks (PEnd (status_end ws))
            (trace st ++ [EClose (stdout h); EClose (stderr h)])
      | (Pending, ks, st1) => with_parent st1 ks (PDrain ws) (trace st)
      end
  | PEnd _ => st
  end.

Inductive Actor : Type :=
| AChild
| AWatcher
| AParent.

Definition session_step (h : XChildHandle) (cap : nat) (a : Actor) (st : Session) : Session :=
  match a with
  | AChild => child_step cap st
  | AWatcher => watcher_step st
  | AParent => parent_step h st
  end.

(** A run of the session along a schedule. *)
Fixpoint run_session (h : XChildHandle) (cap : nat) (sch : list Actor) (st : Session) : Session :=
  match sch with
  | [] => st
  | a :: sch' => run_session h cap sch' (session_step h cap a st)
  end.

(** Right after [spawn]: the child is to write [prog] and end with [ws];
    both ptys are empty and the stream has not been polled. *)
Definition session_start (prog : list (StdioType * PtyLine)) (ws : WaitStatus) : Session :=
  {| todo := prog; child_end := ws; out_buf := []; err_buf := [];
     readers := [Stdout; Stderr]; watched := None; phase := PLoop; trace := [] |}.

(** The lines of [prog] written to pty [k], in order. *)
Definition pty_lines (k : StdioType) (prog : list (StdioType * PtyLine)) : list PtyLine :=
  map snd (filter (fun x => stdio_eqb k (fst x)) prog).

(** The lines before the first failed read. *)
Fixpoint good_lines (ls : list PtyLine) : list string :=
  match ls with
  | [] => []
  | LOk s :: ls' => s :: good_lines ls'
  | LBad :: _ => []
  end.

(** *** What the proofs below track about a session *)

Definition mem (k : StdioType) (ks : list StdioType) : bool := existsb (stdio_eqb k) ks.

Definition opt_list {A} (o : option A) : list A :=
  match o with
  | Some a => [a]
  | None => []
  end.

(** The item a poll result gives the consumer on tag [k]. *)
Definition item_for (k : StdioType) (p : Poll (option (StdioType * string))) : option string :=
  match p with
  | Ready (Some (k', s)) => if stdio_eqb k k' then Some s else None
  | _ => None
  end.

(** What one [pmap_next] does to the entry and the pty of one tag. *)
Inductive key_step (dead : bool) : bool -> list PtyLine -> bool -> list PtyLine -> option string -> Prop :=
| ks_same m b : key_step dead m b m b None
| ks_yield s b : key_step dead true (LOk s :: b) true b (Some s)
| ks_bad b : key_step dead true (LBad :: b) false b None
| ks_eof : dead = true -> key_step dead true [] false [] None.

(** What the stream has done with the lines of one pty: [C] is what it
    has taken from the pty so far. *)
Definition key_inv (full : list PtyLine) (dead present : bool) (b pend : list PtyLine)
    (ys : list string) : Prop :=
  if present then exists C, ~ In LBad C /\ C ++ b ++ pend = full /\ ys = good_lines C
  else ys = good_lines full /\ (In LBad full \/ dead = true).

(** The shape of every reachable session of the child [prog] ending with
    [ws]. *)
Definition session_inv (h : XChildHandle) (prog : list (StdioType * PtyLine)) (ws : WaitStatus)
    (st : Session) : Prop :=
  child_end st = ws /\
  NoDup (readers st) /\
  (forall w, watched st = Some w -> w = ws /\ todo st = []) /\
  (forall k, key_inv (pty_lines k prog) (child_dead st) (mem k (readers st)) (buf st k)
                     (pty_lines k (todo st)) (tag_lines k (yielded (trace st)))) /\
  match phase st with
  | PLoop => trace st = yield_events (yielded (trace st))
  | PDrain w => watched st = Some w /\ trace st = yield_events (yielded (trace st))
  | PEnd en => en = status_end ws /\ readers st = [] /\
               trace st = yield_events (yielded (trace st)) ++ [EClose (stdout h); EClose (stderr h)]
  end.

(** The pty of [k] after its first failed read: nothing reads it any more. *)
Definition hang_inv (cap : nat) (pre post : list PtyLine) (m : bool) (b pend : list PtyLine) : Prop :=
  (List.length b <= cap)%nat /\
  (if m then exists C, ~ In LBad C /\ C ++ b ++ pend = pre ++ LBad :: post
   else b ++ pend = post).

Definition hang_state (cap : nat) (k : StdioType) (pre post : list PtyLine) (st : Session) : Prop :=
  watched st = None /\ phase st = PLoop /\ NoDup (readers st) /\
  hang_inv cap pre post (mem k (readers st)) (buf st k) (pty_lines k (todo st)).

Definition key_weight (m : bool) (b : list PtyLine) : nat :=
  if m then S (List.length b) else O.

Definition phase_weight (ph : Phase) : nat :=
  match ph with
  | PLoop => 1
  | _ => 0
  end.

(** What the stream has still to do once the child is dead. *)
Definition session_weight (st : Session) : nat :=
  key_weight (mem Stdout (readers st)) (buf st Stdout) +
  key_weight (mem Stderr (readers st)) (buf st Stderr) + phase_weight (phase st).

(* ------------------------------------------------------------------ *)
(** ** The argument parsers of [task_args] (winnow over [&str])

    Inputs are ASCII strings; winnow's [AsChar] classes ([is_alphanum],
    the [multispace] set) are ASCII-only as well. *)

Module TaskArgs.

(** [task_args::ParseError]. *)
Inductive ParseError : Type :=
| PEProject | PEFilter | PEModifier | PEBurndown | PEHistory.

(** [Result<T, ParseError>] of the [FromStr] implementations. *)
Inductive result (A : Type) : Type :=
| Ok (a : A)
| Err (e : ParseError).
Arguments Ok {A} a.
Arguments Err {A} e.

(** winnow's [PResult] for a parser over [&mut &str]: the output and the
    rest of the input, or a backtrack error. *)
Definition PResult (A : Type) : Type := option (A * string).

Definition char_in (lo hi : nat) (c : ascii) : bool :=
  Nat.leb lo (nat_of_ascii c) && Nat.leb (nat_of_ascii c) hi.

(** [AsChar::is_alphanum] for [char]: ASCII letters and digits. *)
Definition is_alphanum (c : ascii) : bool :=
  char_in 97 122 c || char_in 65 90 c || char_in 48 57 c.

(** The predicate of [word]. *)
Definition is_word_char (c : ascii) : bool :=
  is_alphanum c || Ascii.eqb c "_"%char || Ascii.eqb c "-"%char || Ascii.eqb c "."%char.

(** The [multispace] set: space, tab, carriage return, line feed. *)
Definition is_multispace (c : ascii) : bool :=
  Ascii.eqb c " "%char || Ascii.eqb c (ascii_of_nat 9) ||
  Ascii.eqb c (ascii_of_nat 13) || Ascii.eqb c (ascii_of_nat 10).

(** The longest prefix whose characters satisfy [p], and the rest. *)
Fixpoint take_while (p : ascii -> bool) (s : string) : string * string :=
  match s with
  | EmptyString => (EmptyString, EmptyString)
  | String c s' =>
      if p c then let '(w, r) := take_while p s' in (String c w, r)
      else (EmptyString, s)
  end.

(** [take_while(1.., p)]. *)
Definition take_while1 (p : ascii -> bool) (s : string) : PResult string :=
  match take_while p s with
  | (EmptyString, _) => None
  | (w, r) => Some (w, r)
  end.

(** [eof]. *)
Definition eof (s : string) : PResult string :=
  match s with
  | EmptyString => Some (EmptyString, EmptyString)
  | _ => None
  end.

Fixpoint strip_prefix (lit s : string) : option string :=
  match lit, s with
  | EmptyString, _ => Some s
  | String c lit', String d s' => if Ascii.eqb c d then strip_prefix lit' s' else None
  | String _ _, EmptyString => None
  end.

(** A string literal used as a parser. *)
Definition tag (lit : string) (s : string) : PResult string :=
  match strip_prefix lit s with
  | Some r => Some (lit, r)
  | None => None
  end.

(** [alt((p, q))]: [q] runs on the original input when [p] backtracks. *)
Definition alt {A} (p q : string -> PResult A) (s : string) : PResult A :=
  match p s with
  | Some r => Some r
  | None => q s
  end.

(** [p.map(f)]. *)
Definition pmap {A B} (f : A -> B) (p : string -> PResult A) (s : string) : PResult B :=
  match p s with
  | Some (a, r) => Some (f a, r)
  | None => None
  end.

(** Sequencing: [let a = p.parse_next(s)?; ...]. *)
Definition pbind {A B} (r : PResult A) (k : A -> string -> PResult B) : PResult B :=
  match r with
  | Some (a, s') => k a s'
  | None => None
  end.

(** [repeat(0.., p)]: stops (restoring the input) at the first backtrack
    of [p]; a success that consumes nothing is an error. *)
Fixpoint repeat0_fuel {A} (n : nat) (p : string -> PResult A) (s : string) : PResult (list A) :=
  match n with
  | O => None
  | S n' =>
      match p s with
      | None => Some ([], s)
      | Some (a, s') =>
          if Nat.eqb (String.length s') (String.length s) then None
          else match repeat0_fuel n' p s' with
               | Some (l, r) => Some (a :: l, r)
               | None => None
               end
      end
  end.

(** Every round consumes input, so this much fuel is enough. *)
Definition repeat0 {A} (p : string -> PResult A) (s : string) : PResult (list A) :=
  repeat0_fuel (S (String.length s)) p s.

(** [Parser::parse]: the parser, then [eof]. *)
Definition parse_all {A} (p : string -> PResult A) (s : string) : option A :=
  match p s with
  | Some (a, EmptyString) => Some a
  | _ => None
  end.

(** [word]. *)
Definition word (s : string) : PResult string := take_while1 is_word_char s.

Definition multispace1 (s : string) : PResult string := take_while1 is_multispace s.

(** [word_space_or_end]. *)
Definition word_space_or_end (s : string) : PResult string :=
  pbind (word s) (fun w s1 =>
  pbind (alt multispace1 eof s1) (fun _ s2 => Some (w, s2))).

(** [multi_word]. *)
Definition multi_word (s : string) : PResult (list string) :=
  repeat0 word_space_or_end s.

(** [project::Project]. *)
Record Project := { name : string }.

(** [impl Display for Project]. *)
Definition project_display (p : Project) : string := "project:" ++ name p.

(** [project::project]. *)
Definition project (s : string) : PResult Project :=
  pbind (alt (tag "project") (tag "proj") s) (fun _ s1 =>
  pbind (tag ":" s1) (fun _ s2 =>
  pmap (fun n => {| name := n |}) word s2)).

(** [filter::Filter]. *)
Inductive Filter : Type :=
| FProject (p : Project)
| FOther (fname fvalue : string).

(** [impl Display for Filter]. *)
Definition filter_display (f : Filter) : string :=
  match f with
  | FProject p => project_display p
  | FOther n v => n ++ ":" ++ v
  end.

(** [filter::other]. *)
Definition filter_other (s : string) : PResult Filter :=
  pbind (word s) (fun n s1 =>
  pbind (tag ":" s1) (fun _ s2 =>
  pbind (word s2) (fun v s3 => Some (FOther n v, s3)))).

(** [filter::filter]. *)
Definition filter (s : string) : PResult Filter :=
  alt (pmap FProject project) filter_other s.

Definition filter_space_or_end (s : string) : PResult Filter :=
  pbind (filter s) (fun f s1 =>
  pbind (alt multispace1 eof s1) (fun _ s2 => Some (f, s2))).

(** [filter::filters]; the [Filters] wrapper is its list. *)
Definition filters (s : string) : PResult (list Filter) :=
  repeat0 filter_space_or_end s.

(** [impl FromStr for Filters]. *)
Definition filters_from_str (s : string) : result (list Filter) :=
  match parse_all filters s with
  | Some fs => Ok fs
  | None => Err PEFilter
  end.

(** [modifier::Modifier]. *)
Inductive Modifier : Type :=
| Description (d : string)
| MProject (p : Project)
| MOther (mname mvalue : string).

(** [impl Display for Modifier]. *)
Definition modifier_display (m : Modifier) : string :=
  match m with
  | Description d => d
  | MProject p => project_display p
  | MOther n v => n ++ ":" ++ v
  end.

(** [modifier::other]. *)
Definition modifier_other (s : string) : PResult Modifier :=
  pbind (word s) (fun n s1 =>
  pbind (tag ":" s1) (fun _ s2 =>
  pbind (word s2) (fun v s3 => Some (MOther n v, s3)))).

Definition description (s : string) : PResult Modifier := pmap Description word s.

Definition standard_modifier (s : string) : PResult Modifier :=
  alt (pmap MProject project) modifier_other s.

(** [modifier::modifier]. *)
Definition modifier (s : string) : PResult Modifier :=
  alt standard_modifier description s.

Definition modifier_space_or_end (s : string) : PResult Modifier :=
  pbind (modifier s) (fun m s1 =>
  pbind (alt multispace1 eof s1) (fun _ s2 => Some (m, s2))).

Definition modifiers (s : string) : PResult (list Modifier) :=
  repeat0 modifier_space_or_end s.

(** [impl FromStr for Modifier] (how clap parses each [mods] argument). *)
Definition modifier_from_str (s : string) : result Modifier :=
  match parse_all modifier s with
  | Some m => Ok m
  | None => Err PEModifier
  end.

(** [impl FromStr for Modifiers]. *)
Definition modifiers_from_str (s : string) : result (list Modifier) :=
  match parse_all modifiers s with
  | Some ms => Ok ms
  | None => Err PEModifier
  end.

(** [burndown::Burndown]. *)
Inductive Burndown : Type := BDaily | BMonthly | BWeekly.

(** [burndown::burndown]. *)
Definition burndown (s : string) : PResult Burndown :=
  alt (pmap (fun _ => BDaily) (tag "daily"))
      (alt (pmap (fun _ => BMonthly) (tag "monthly"))
           (pmap (fun _ => BWeekly) (tag "weekly"))) s.

Definition burndown_from_str (s : string) : result Burndown :=
  match parse_all burndown s with
  | Some b => Ok b
  | None => Err PEBurndown
  end.

(** [history::History]. *)
Inductive History : Type := HAnnual | HDaily | HMonthly | HWeekly.

(** [history::history]: daily, monthly, weekly, annual, in that order. *)
Definition history (s : string) : PResult History :=
  alt (pmap (fun _ => HDaily) (tag "daily"))
      (alt (pmap (fun _ => HMonthly) (tag "monthly"))
           (alt (pmap (fun _ => HWeekly) (tag "weekly"))
                (pmap (fun _ => HAnnual) (tag "annual")))) s.

Definition history_from_str (s : string) : result History :=
  match parse_all history s with
  | Some h => Ok h
  | None => Err PEHistory
  end.

(** Predicates used in the statements about these parsers. *)

Fixpoint str_forall (p : ascii -> bool) (s : string) : bool :=
  match s with
  | EmptyString => true
  | String c s' => p c && str_forall p s'
  end.

Definition starts_with (p : ascii -> bool) (s : string) : bool :=
  match s with
  | EmptyString => false
  | String c _ => p c
  end.

(** A string [word] consumes entirely. *)
Definition is_word (w : string) : bool :=
  negb (String.eqb w "") && str_forall is_word_char w.

(** A name that [project] does not claim. *)
Definition not_project_kw (n : string) : bool :=
  negb (String.eqb n "project") && negb (String.eqb n "proj").

(** Filters whose [Display] form is made of words. *)
Definition valid_filter (f : Filter) : bool :=
  match f with
  | FProject p => is_word (name p)
  | FOther n v => is_word n && is_word v && not_project_kw n
  end.

Definition valid_modifier (m : Modifier) : bool :=
  match m with
  | Description d => is_word d
  | MProject p => is_word (name p)
  | MOther n v => is_word n && is_word v && not_project_kw n
  end.

End TaskArgs.

(* ------------------------------------------------------------------ *)
(** ** The subcommands of [args.rs] *)

Module Args.

(** [args::Commands]; a [PathBuf] payload is kept as its [display()]
    string. The variant [Commands::Commands] is [Commands'] here, as a
    constructor cannot share its type's name. *)
Inductive Commands : Type :=
| Add (mods : list TaskArgs.Modifier)
| All
| Project
| Annotate (mods : list TaskArgs.Modifier)
| Append (mods : list TaskArgs.Modifier)
| Blocked
| Blocking
| Burndown (burndown : TaskArgs.Burndown)
| Calc (expression : list string)
| Calendar (extra_args : list string)
| Colors (extra_args : list string)
| Columns (extra_args : list string)
| Commands'
| Completed
| Config (extra_args : list string)
| Context (extra_args : list string)
| Count
| Delete (mods : list TaskArgs.Modifier)
| Denotate (extra_args : list string)
| Diagnostics
| Done (mods : list TaskArgs.Modifier)
| Duplicate (mods : list TaskArgs.Modifier)
| Edit
| Execute (cmd : list string)
| Export (report : string)
| Ghistory (history : TaskArgs.History)
| TaskHelp (usage : bool)
| History (history : TaskArgs.History)
| Ids
| Import (files : list string)
| Information
| Info
| List
| Log (mods : list TaskArgs.Modifier)
| Logo
| Long
| Ls
| Minimal
| Modify (mods : list TaskArgs.Modifier)
| Newest
| News
| Next
| Oldest
| Overdue
| Prepend (mods : list TaskArgs.Modifier)
| Projects
| Purge
| Ready
| Recurring
| Reports
| Show (extra_args : list string)
| Start (mods : list TaskArgs.Modifier)
| Stats
| Stop (mods : list TaskArgs.Modifier)
| Summary
| Synchronize (extra_args : list string)
| Tags
| Timesheet
| Udas
| Unblocked
| Undo
| Uuids
| Waiting
| Rm (mods : list TaskArgs.Modifier).

(** [impl Display for Commands]. *)
Definition commands_display (c : Commands) : string :=
  match c with
  | Add _ => "add"
  | All => "all"
  | Project => "project"
  | Annotate _ => "annotate"
  | Append _ => "append"
  | Blocked => "blocked"
  | Blocking => "blocking"
  | Burndown b =>
      match b with
      | TaskArgs.BDaily => "burndown.daily"
      | TaskArgs.BMonthly => "burndown.monthly"
      | TaskArgs.BWeekly => "burndown.weekly"
      end
  | Calc _ => "calc"
  | Calendar _ => "calendar"
  | Colors _ => "colors"
  | Columns _ => "columns"
  | Commands' => "commands"
  | Completed => "completed"
  | Config _ => "config"
  | Context _ => "context"
  | Count => "count"
  | Delete _ => "delete"
  | Denotate _ => "denotate"
  | Diagnostics => "diagnostics"
  | Done _ => "done"
  | Duplicate _ => "duplicate"
  | Edit => "edit"
  | Execute _ => "execute"
  | Export _ => "export"
  | Ghistory h =>
      match h with
      | TaskArgs.HAnnual => "ghistory.annual"
      | TaskArgs.HDaily => "ghistory.daily"
      | TaskArgs.HMonthly => "ghistory.monthly"
      | TaskArgs.HWeekly => "ghistory.weekly"
      end
  | TaskHelp _ => "help"
  | History h =>
      match h with
      | TaskArgs.HAnnual => "history.annual"
      | TaskArgs.HDaily => "history.daily"
      | TaskArgs.HMonthly => "history.monthly"
      | TaskArgs.HWeekly => "history.weekly"
      end
  | Ids => "ids"
  | Import _ => "import"
  | Information | Info => "information"
  | List => "list"
  | Log _ => "log"
  | Logo => "logo"
  | Long => "long"
  | Ls => "ls"
  | Minimal => "minimal"
  | Modify _ => "modify"
  | Newest => "newest"
  | News => "news"
  | Next => "next"
  | Oldest => "oldest"
  | Overdue => "overdue"
  | Prepend _ => "prepend"
  | Projects => "projects"
  | Purge => "purge"
  | Ready => "ready"
  | Recurring => "recurring"
  | Reports => "reports"
  | Show _ => "show"
  | Stats => "stats"
  | Stop _ => "stop"
  | Summary => "summary"
  | Synchronize _ => "synchronize"
  | Tags => "tags"
  | Timesheet => "timesheet"
  | Udas => "udas"
  | Unblocked => "unblocked"
  | Undo => "undo"
  | Uuids => "uuids"
  | Waiting => "waiting"
  | Start _ => "start"
  | Rm _ => "rm"
  end.

End Args.

(* ------------------------------------------------------------------ *)
(** ** The argument handling of main.rs *)

(** A canonical absolute path, as its components from the innermost one
    out: [/home/u/repo] is [["repo"; "u"; "home"]] and the root is [[]].
    [parent] drops the head; [file_name] is the head. *)
Definition Path := list string.

Definition file_name (p : Path) : option string :=
  match p with
  | [] => None
  | n :: _ => Some n
  end.

Fixpoint path_eqb (a b : Path) : bool :=
  match a, b with
  | [], [] => true
  | x :: a', y :: b' => String.eqb x y && path_eqb a' b'
  | _, _ => false
  end.

(** The file system as [find_project] sees it. *)
Record ProjEnv := {
  current_dir : option Path;        (* env::current_dir(); None is an error *)
  has_git_dir : Path -> bool        (* path.join(".git").is_dir() *)
}.

(** [project_name_from_path]: [file_name().unwrap()]. *)
Definition project_name_from_path (p : Path) : Outcome string :=
  unwrap (file_name p).

(** The loop of [find_project], from [cwd] up to the root. *)
Fixpoint find_project_from (has_git : Path -> bool) (cwd : Path) : Outcome (option TaskArgs.Project) :=
  if has_git cwd then
    name <- project_name_from_path cwd ;;
    Done (Some {| TaskArgs.name := name |})
  else
    match cwd with
    | [] => Done None
    | _ :: parent => find_project_from has_git parent
    end.

(** [find_project]. *)
Definition find_project (e : ProjEnv) : Outcome (option TaskArgs.Project) :=
  cwd <- try_sys (current_dir e) CurrentDirError ;;
  find_project_from (has_git_dir e) cwd.

(** [main::Index]. *)
Inductive Index : Type :=
| At (i : nat)      (* Index::Index(i) *)
| AtEnd.            (* Index::End *)

(** [Vec::insert]: panics when the index is past the end. *)
Definition vec_insert {A} (i : nat) (x : A) (l : list A) : Outcome (list A) :=
  if Nat.leb i (List.length l) then Done (firstn i l ++ x :: skipn i l) else Panicked.

(** [set_project(project_provided, args, index)], returning the new
    [args]. *)
Definition set_project (e : ProjEnv) (project_provided : bool) (args : list string) (index : Index)
  : Outcome (list string) :=
  if project_provided then Done args else
  found <- find_project e ;;
  match found with
  | None => Done args
  | Some p =>
      let s := TaskArgs.project_display p in
      match index with
      | At i => vec_insert i s args
      | AtEnd => Done (args ++ [s])
      end
  end.

(** [no_filter(command, filters)]. *)
Definition no_filter (c : Args.Commands) (filters : option (list TaskArgs.Filter)) : Outcome unit :=
  match filters with
  | Some _ => Fail (NoFilterAllowed (Args.commands_display c))
  | None => Done tt
  end.

Definition is_filter_project (f : TaskArgs.Filter) : bool :=
  match f with TaskArgs.FProject _ => true | _ => false end.

Definition is_modifier_project (m : TaskArgs.Modifier) : bool :=
  match m with TaskArgs.MProject _ => true | _ => false end.

(** The filters of [if let Some(filters) = &filters]. *)
Definition filters_list (filters : option (list TaskArgs.Filter)) : list TaskArgs.Filter :=
  match filters with Some fs => fs | None => [] end.

(** The [task_args] vector [main] builds from the parsed [Cli] ([filter]
    and [command]) before [run(&task_bin, &task_args)]. *)
Definition build_task_args (e : ProjEnv) (filters : option (list TaskArgs.Filter))
    (command : option Args.Commands) : Outcome (list string) :=
  let fs := filters_list filters in
  let project_filter_provided := existsb is_filter_project fs in
  let args0 := map TaskArgs.filter_display fs in
  match command with
  | None => Done args0
  | Some c =>
      let args1 := args0 ++ [Args.commands_display c] in
      match c with
      | Args.Add mods =>
          _ <- no_filter c filters ;;
          set_project e (existsb is_modifier_project mods)
            (args1 ++ map TaskArgs.modifier_display mods) AtEnd
      | Args.All => Done args1
      | Args.Blocked | Args.Blocking | Args.Completed | Args.Count | Args.Edit | Args.Ids
      | Args.Info | Args.Information | Args.Long | Args.Ls | Args.Minimal | Args.Newest
      | Args.Next | Args.Oldest | Args.Overdue | Args.Projects | Args.List | Args.Purge
      | Args.Recurring | Args.Stats | Args.Summary | Args.Tags | Args.Timesheet
      | Args.Unblocked | Args.Uuids | Args.Waiting | Args.Ready
      | Args.Burndown _ | Args.Ghistory _ | Args.History _ =>
          set_project e project_filter_provided args1 (At 0)
      | Args.Project =>
          if project_filter_provided then Fail ProjectFilterWithProject
          else set_project e false args1 (At 1)
      | Args.Start mods | Args.Stop mods | Args.Prepend mods | Args.Modify mods
      | Args.Log mods | Args.Done mods | Args.Duplicate mods | Args.Append mods
      | Args.Annotate mods | Args.Delete mods | Args.Rm mods =>
          set_project e (existsb is_modifier_project mods)
            (args1 ++ map TaskArgs.modifier_display mods) AtEnd
      | Args.Calc expression =>
          _ <- no_filter c filters ;; Done (args1 ++ expression)
      | Args.Calendar extra_args | Args.Colors extra_args | Args.Columns extra_args
      | Args.Config extra_args | Args.Context extra_args | Args.Show extra_args
      | Args.Synchronize extra_args =>
          _ <- no_filter c filters ;; Done (args1 ++ extra_args)
      | Args.Denotate extra_args => Done (args1 ++ extra_args)
      | Args.Execute cmd =>
          _ <- no_filter c filters ;; Done (args1 ++ cmd)
      | Args.Export report => Done (args1 ++ [report])
      | Args.TaskHelp usage =>
          _ <- no_filter c filters ;;
          Done (if usage then args1 ++ ["usage"%string] else args1)
      | Args.Import files =>
          _ <- no_filter c filters ;; Done (args1 ++ files)
      | Args.Undo | Args.Udas | Args.Reports | Args.Diagnostics | Args.Commands'
      | Args.Logo | Args.News =>
          _ <- no_filter c filters ;; Done args1
      end
  end.

(** The loop of [find_taskwarrior] over the matches of [which_all]. *)
Fixpoint first_other (canonicalize : string -> option Path) (this_program : Path)
    (ms : list string) : Outcome Path :=
  match ms with
  | [] => Fail TaskNotFound
  | m :: ms' =>
      c <- try_sys (canonicalize m) CanonicalizeError ;;
      if path_eqb c this_program then first_other canonicalize this_program ms'
      else Done c
  end.

(** [find_taskwarrior(this_program)]; [which_all] is [None] when it
    errs. *)
Definition find_taskwarrior (canonicalize : string -> option Path)
    (which_all : option (list string)) (this_program : Path) : Outcome Path :=
  match which_all with
  | None => Fail TaskNotFound
  | Some ms => first_other canonicalize this_program ms
  end.

(** [char::is_whitespace] on ASCII: tab, line feed, vertical tab, form
    feed, carriage return and space. *)
Definition is_whitespace (c : ascii) : bool :=
  (Nat.leb 9 (nat_of_ascii c) && Nat.leb (nat_of_ascii c) 13) || Nat.eqb (nat_of_ascii c) 32.

Fixpoint trim_start (s : string) : string :=
  match s with
  | EmptyString => EmptyString
  | String c s' => if is_whitespace c then trim_start s' else s
  end.

Fixpoint trim_end (s : string) : string :=
  match s with
  | EmptyString => EmptyString
  | String c s' =>
      let r := trim_end s' in
      if String.eqb r "" && is_whitespace c then EmptyString else String c r
  end.

(** [str::trim]. *)
Definition trim (s : string) : string := trim_end (trim_start s).

(** [task_version(task_bin)]: the trimmed standard output of
    [task --version]; [None] is a failed [output()] or [from_utf8]. *)
Definition task_version (version_stdout : Path -> option string) (task_bin : Path) : Outcome string :=
  s <- try_sys (version_stdout task_bin) TaskVersionError ;;
  Done (trim s).

(** What [main] sees before [Cli::parse_from]. *)
Record MainEnv := {
  argv : list string;                      (* std::env::args() *)
  canonicalize : string -> option Path;    (* fs::canonicalize *)
  which_all_task : option (list string);   (* which::which_all("task") *)
  version_stdout : Path -> option string   (* stdout of `<bin> --version` *)
}.

(** How the first part of [main] goes on. *)
Inductive MainStart : Type :=
| Mimic (task_bin : Path) (args : list string)
    (* invoked as 'task': run(&task_bin, args[1..]) and exit with its code *)
| PrintVersion (version : string) (compatible : bool)   (* "--version", exit 0 *)
| PrintShortVersion                                       (* "-V", exit 0 *)
| Proceed (task_bin : Path) (version_compat : bool).     (* on to Cli::parse_from *)

(** [args[i]]: panics out of bounds. *)
Definition index_or_panic {A} (l : list A) (i : nat) : Outcome A := unwrap (nth_error l i).

(** [main] up to the [match args[1].as_str()]. *)
Definition main_start (e : MainEnv) : Outcome MainStart :=
  a0 <- index_or_panic (argv e) 0 ;;
  this_program <- try_sys (canonicalize e a0) CanonicalizeError ;;
  task_bin <- find_taskwarrior (canonicalize e) (which_all_task e) this_program ;;
  v <- task_version (version_stdout e) task_bin ;;
  let version_compat := String.eqb v "3.1.0" in
  name <- unwrap (file_name this_program) ;;
  if String.eqb name "task" then Done (Mimic task_bin (tl (argv e))) else
  a1 <- index_or_panic (argv e) 1 ;;
  if String.eqb a1 "--version" then Done (PrintVersion v version_compat)
  else if String.eqb a1 "-V" then Done PrintShortVersion
  else Done (Proceed task_bin version_compat).

(** The groups of subcommands that share an arm of [main]'s [match]:
    the reports, which get the project as their first filter ... *)
Definition report_command (c : Args.Commands) : bool :=
  match c with
  | Args.Blocked | Args.Blocking | Args.Completed | Args.Count | Args.Edit | Args.Ids
  | Args.Info | Args.Information | Args.Long | Args.Ls | Args.Minimal | Args.Newest
  | Args.Next | Args.Oldest | Args.Overdue | Args.Projects | Args.List | Args.Purge
  | Args.Recurring | Args.Stats | Args.Summary | Args.Tags | Args.Timesheet
  | Args.Unblocked | Args.Uuids | Args.Waiting | Args.Ready
  | Args.Burndown _ | Args.Ghistory _ | Args.History _ => true
  | _ => false
  end.

(** ... the commands other than [add] that take modifiers ... *)
Definition modifying_command (c : Args.Commands) : option (list TaskArgs.Modifier) :=
  match c with
  | Args.Start mods | Args.Stop mods | Args.Prepend mods | Args.Modify mods
  | Args.Log mods | Args.Done mods | Args.Duplicate mods | Args.Append mods
  | Args.Annotate mods | Args.Delete mods | Args.Rm mods => Some mods
  | _ => None
  end.

(** ... and the commands that call [no_filter]. *)
Definition no_filter_command (c : Args.Commands) : bool :=
  match c with
  | Args.Add _ | Args.Calc _ | Args.Calendar _ | Args.Colors _ | Args.Columns _
  | Args.Config _ | Args.Context _ | Args.Show _ | Args.Synchronize _ | Args.Execute _
  | Args.TaskHelp _ | Args.Import _ | Args.Undo | Args.Udas | Args.Reports
  | Args.Diagnostics | Args.Commands' | Args.Logo | Args.News => true
  | _ => false
  end.

(** A [canonicalize] for the examples: a wrapper installed as
    /home/u/bin/task and taskwarrior at /usr/bin/task. *)
Definition demo_canon (s : string) : option Path :=
  if String.eqb s "/home/u/bin/task"%string then Some ["taskhelper"; "bin"; "home"]%string
  else if String.eqb s "/usr/bin/task"%string then Some ["task"; "bin"; "usr"]%string
  else None.

(** A descriptor table that holds no pty: only what the process inherited. *)
Definition inherited_only (t : FdTable) : Prop :=
  forall fd o, fd_lookup t fd = Some o -> exists x, o = Inherited x.

(* NEWDEFS *)


(* ------------------------------------------------------------------ *)
(** ** Lemmas on the multiplexer *)

Lemma stdio_eqb_spec (a b : StdioType) : stdio_eqb a b = true <-> a = b.
Proof. destruct a, b; simpl; split; congruence. Qed.

Lemma stdio_eqb_refl (a : StdioType) : stdio_eqb a a = true.
Proof. destruct a; reflexivity. Qed.

Lemma map_next_keys (m : StreamMap) :
  incl (map fst (snd (map_next m))) (map fst m) /\
  (forall k s, fst (map_next m) = Ready (Some (k, s)) -> In k (map fst m)).
Proof.
  induction m as [|[k0 r] m0 [IHi IHk]]; simpl.
  - split; [apply incl_refl | discriminate].
  - destruct r as [|[| s |] r']; simpl.
    + split.
      * intros x Hx; right; apply IHi; exact Hx.
      * intros k s H; right; eapply IHk; exact H.
    + destruct (map_next m0) as [p m''] eqn:E; simpl in *.
      destruct p as [|[[k1 s1]|]]; simpl; split;
        try (intros x [Hx|Hx]; [left; exact Hx | right; apply IHi; exact Hx]);
        try discriminate.
      intros k s H; inversion H; subst; right; eapply IHk; reflexivity.
    + split.
      * apply incl_refl.
      * intros k s' H; inversion H; subst; left; reflexivity.
    + split.
      * intros x Hx; right; apply IHi; exact Hx.
      * intros k s H; right; eapply IHk; exact H.
Qed.

Lemma map_next_nodup (m : StreamMap) :
  NoDup (map fst m) -> NoDup (map fst (snd (map_next m))).
Proof.
  induction m as [|[k0 r] m0 IH]; simpl; intros Hnd; [constructor|].
  inversion Hnd as [|? ? Hnin Hnd0]; subst.
  destruct r as [|[| s |] r']; simpl; try (apply IH; exact Hnd0); try exact Hnd.
  pose proof (proj1 (map_next_keys m0)) as Hincl.
  destruct (map_next m0) as [p m''] eqn:E; simpl in *.
  assert (Hn : NoDup (k0 :: map fst m'')).
  { constructor; [intro Hin; apply Hnin, Hincl, Hin | apply IH, Hnd0]. }
  destruct p as [|[[k1 s1]|]]; exact Hn.
Qed.

Lemma msize_cons (e : StdioType * Reader) (m : StreamMap) :
  msize (e :: m) = (S (List.length (snd e)) + msize m)%nat.
Proof. reflexivity. Qed.

Lemma map_next_size (m : StreamMap) :
  match map_next m with
  | (Ready None, m') => m' = []
  | (_, m') => (msize m' < msize m)%nat
  end.
Proof.
  induction m as [|[k0 r] m0 IH]; simpl; [reflexivity|].
  destruct r as [|[| s |] r']; simpl.
  - destruct (map_next m0) as [[|[[k1 s1]|]] m'']; rewrite ?msize_cons; simpl;
      first [lia | assumption].
  - destruct (map_next m0) as [[|[[k1 s1]|]] m''] eqn:E; subst;
      rewrite ?msize_cons; simpl; lia.
  - rewrite ?msize_cons; simpl; lia.
  - destruct (map_next m0) as [[|[[k1 s1]|]] m'']; rewrite ?msize_cons; simpl;
      first [lia | assumption].
Qed.

Lemma all_lines_cons (k : StdioType) (e : StdioType * Reader) (m : StreamMap) :
  all_lines k (e :: m) =
  (if stdio_eqb k (fst e) then lines_of (snd e) else []) ++ all_lines k m.
Proof. reflexivity. Qed.

Lemma map_next_lines (m : StreamMap) (k' : StdioType) :
  NoDup (map fst m) ->
  match map_next m with
  | (Ready (Some (k, s)), m') =>
      all_lines k' m = (if stdio_eqb k' k then [s] else []) ++ all_lines k' m'
  | (Ready None, _) => all_lines k' m = []
  | (Pending, m') => all_lines k' m = all_lines k' m'
  end.
Proof.
  induction m as [|[k0 r] m0 IH]; intros Hnd; [reflexivity|].
  inversion Hnd as [|? ? Hnin Hnd0]; subst.
  specialize (IH Hnd0).
  pose proof (proj2 (map_next_keys m0)) as Hkey.
  pose proof (map_next_size m0) as Hsz.
  simpl map_next; rewrite all_lines_cons; simpl fst; simpl snd.
  destruct r as [|[| s |] r']; simpl poll_lines; cbv iota beta.
  - simpl lines_of; destruct (stdio_eqb k' k0); exact IH.
  - destruct (map_next m0) as [[|[[k1 s1]|]] m''] eqn:E;
      rewrite ?all_lines_cons; simpl fst; simpl snd; simpl lines_of.
    + rewrite IH; reflexivity.
    + assert (Hk : k1 <> k0).
      { intro; subst; apply Hnin, (Hkey k0 s1); reflexivity. }
      rewrite IH.
      destruct (stdio_eqb k' k0) eqn:E0, (stdio_eqb k' k1) eqn:E1; try reflexivity.
      apply stdio_eqb_spec in E0, E1; congruence.
    + subst m''; rewrite IH; reflexivity.
  - simpl lines_of; rewrite all_lines_cons; simpl fst; simpl snd.
    destruct (stdio_eqb k' k0); reflexivity.
  - simpl lines_of; destruct (stdio_eqb k' k0); exact IH.
Qed.

Lemma tag_lines_cons (k' k : StdioType) (s : string) (ys : list (StdioType * string)) :
  tag_lines k' ((k, s) :: ys) = (if stdio_eqb k' k then [s] else []) ++ tag_lines k' ys.
Proof. unfold tag_lines; simpl; destruct (stdio_eqb k' k); reflexivity. Qed.

(** The drain loop yields every remaining line of every entry, tag by tag
    in order, and then stops. *)
Lemma drain_spec (fuel : nat) (m : StreamMap) :
  NoDup (map fst m) -> (msize m < fuel)%nat ->
  exists ys, drain fuel m = (yield_events ys, true) /\
             forall k, tag_lines k ys = all_lines k m.
Proof.
  revert m; induction fuel as [|f IH]; intros m Hnd Hf; [lia|].
  pose proof (map_next_nodup m Hnd) as Hnd'.
  pose proof (map_next_size m) as Hsz.
  assert (Hl := fun k' => map_next_lines m k' Hnd).
  simpl drain.
  destruct (map_next m) as [[|[[k s]|]] m'] eqn:E; simpl in Hnd'.
  - destruct (IH m' Hnd' ltac:(lia)) as [ys [Hd Ht]].
    exists ys; split; [exact Hd|].
    intros k'; rewrite Ht; symmetry; exact (Hl k').
  - destruct (IH m' Hnd' ltac:(lia)) as [ys [Hd Ht]].
    rewrite Hd; exists ((k, s) :: ys); split; [reflexivity|].
    intros k'; rewrite tag_lines_cons, Ht, (Hl k'); reflexivity.
  - exists []; split; [reflexivity|].
    intros k'; rewrite (Hl k'); reflexivity.
Qed.

(** The select loop: whatever the timing of the readers and of the exit
    watcher, once [waitpid] succeeds the stream yields every line of every
    entry (tag by tag, in order), then closes the two descriptors, and
    ends as the wait status dictates. *)
Lemma mux_loop_spec (fuel : nat) (o e : Z) (m : StreamMap) (j : JoinHandle) (ws : WaitStatus) :
  wait_result j = Some ws -> NoDup (map fst m) ->
  (msize m + join_wait j + 1 < fuel)%nat ->
  exists ys, mux_loop fuel o e m j = (yield_events ys ++ [EClose o; EClose e], status_end ws) /\
             forall k, tag_lines k ys = all_lines k m.
Proof.
  revert m j; induction fuel as [|f IH]; intros m j Hw Hnd Hf; [lia|].
  pose proof (map_next_nodup m Hnd) as Hnd'.
  pose proof (map_next_size m) as Hsz.
  assert (Hl := fun k' => map_next_lines m k' Hnd).
  simpl mux_loop; unfold select_biased.
  destruct (map_next m) as [[|[[k s]|]] m'] eqn:E; simpl in Hnd'.
  - destruct (join_wait j) as [|n] eqn:J.
    + rewrite Hw.
      destruct (drain_spec f m' Hnd' ltac:(lia)) as [ys [Hd Ht]].
      rewrite Hd; exists ys; split; [reflexivity|].
      intros k'; rewrite Ht; symmetry; exact (Hl k').
    + destruct (IH m' {| join_wait := n; wait_result := wait_result j |} Hw Hnd'
                  ltac:(simpl; lia)) as [ys [Hd Ht]].
      exists ys; split; [exact Hd|].
      intros k'; rewrite Ht; symmetry; exact (Hl k').
  - destruct (IH m' j Hw Hnd' ltac:(lia)) as [ys [Hd Ht]].
    rewrite Hd; exists ((k, s) :: ys); split; [reflexivity|].
    intros k'; rewrite tag_lines_cons, Ht, (Hl k'); reflexivity.
  - subst m'.
    destruct (join_wait j) as [|n] eqn:J.
    + rewrite Hw; simpl; exists []; split; [destruct f; [lia | reflexivity]|].
      intros k'; rewrite (Hl k'); reflexivity.
    + destruct (IH [] {| join_wait := n; wait_result := wait_result j |} Hw
                  (NoDup_nil _) ltac:(simpl; lia)) as [ys [Hd Ht]].
      exists ys; split; [exact Hd|].
      intros k'; rewrite Ht, (Hl k'); reflexivity.
Qed.

Lemma initial_map_nodup (e : StreamEnv) : NoDup (map fst (initial_map e)).
Proof.
  simpl; constructor; [simpl; intros [H|[]]; discriminate|].
  constructor; [intros []|constructor].
Qed.

(** [XChildHandle::stream] over a whole run of the child. *)
Lemma stream_spec (h : XChildHandle) (e : StreamEnv) (ws : WaitStatus) :
  wait_result (watcher e) = Some ws ->
  exists ys,
    stream h e = (yield_events ys ++ [EClose (stdout h); EClose (stderr h)], status_end ws) /\
    tag_lines Stdout ys = lines_of (out_reader e) /\
    tag_lines Stderr ys = lines_of (err_reader e).
Proof.
  intros Hw; unfold stream, stream_fuel.
  destruct (mux_loop_spec (msize (initial_map e) + join_wait (watcher e) + 2)
              (stdout h) (stderr h) (initial_map e) (watcher e) ws Hw
              (initial_map_nodup e) ltac:(lia)) as [ys [Hd Ht]].
  exists ys; split; [exact Hd|].
  rewrite !Ht; unfold all_lines; simpl; rewrite !app_nil_r; split; reflexivity.
Qed.

(* ------------------------------------------------------------------ *)
(** ** More lemmas *)

Lemma map_next_line_ready (m : StreamMap) (k : StdioType) (s : string) (r : Reader) :
  In (k, RLine s :: r) m ->
  exists k' s' m', map_next m = (Ready (Some (k', s')), m').
Proof.
  induction m as [|[k0 r0] m0 IH]; simpl; [intros []|].
  intros [Heq | Hin].
  - inversion Heq; subst; simpl; eauto.
  - destruct r0 as [|[| s0 |] r0']; simpl.
    + exact (IH Hin).
    + destruct (IH Hin) as [k' [s' [m' E]]]; rewrite E; eauto.
    + eauto.
    + exact (IH Hin).
Qed.

Lemma cstr_args_nul (l : list string) :
  existsb has_nul l = true -> exists a, has_nul a = true /\ cstr_args l = Fail (CStringError a).
Proof.
  induction l as [|a l IH]; simpl; [discriminate|].
  unfold cstring_new; destruct (has_nul a) eqn:Ha; simpl.
  - intros _; exists a; split; [exact Ha | reflexivity].
  - intros H; destruct (IH H) as [a' [Ha' E]]; rewrite E; exists a'; split; [exact Ha' | reflexivity].
Qed.

Lemma cstr_args_ok (l : list string) :
  existsb has_nul l = false -> cstr_args l = Done l.
Proof.
  induction l as [|a l IH]; simpl; [reflexivity|].
  unfold cstring_new; destruct (has_nul a); simpl; [discriminate|].
  intros H; rewrite (IH H); reflexivity.
Qed.

(** [spawn] has no encoding-failure path. *)
Lemma spawn_no_cstring_error (s : Sys) (c : XCommand) (a : string) :
  fst (fst (spawn s c)) <> Fail (CStringError a).
Proof.
  unfold spawn.
  destruct (openpty s) as [[[om osl] s1]|]; [|discriminate].
  destruct (openpty s1) as [[[em esl] s2]|]; [|discriminate].
  destruct (negb (sys_fork_ok s2)); [discriminate|].
  destruct (fd_close (sys_fds s2) osl) as [t1|]; simpl; [|discriminate].
  destruct (fd_close t1 esl); simpl; discriminate.
Qed.

(* ------------------------------------------------------------------ *)
(** ** Lemmas on descriptor tables and [run] *)

Lemma fd_lookup_remove (t : FdTable) (x y : Z) :
  x <> y -> fd_lookup (fd_remove t y) x = fd_lookup t x.
Proof.
  intros Hxy; induction t as [|[fd o] t IH]; simpl; [reflexivity|].
  destruct (Z.eqb y fd) eqn:Ey; simpl.
  - apply Z.eqb_eq in Ey; subst fd.
    rewrite IH; apply Z.eqb_neq in Hxy; rewrite Hxy; reflexivity.
  - destruct (Z.eqb x fd); [reflexivity | exact IH].
Qed.

Lemma fd_dup2_lookup (t : FdTable) (x y : Z) (o : FileObj) :
  fd_lookup t x = Some o ->
  exists t', fd_dup2 t x y = Some t' /\ fd_lookup t' y = Some o /\ fd_lookup t' x = Some o /\
             forall z, z <> y -> fd_lookup t' z = fd_lookup t z.
Proof.
  intros Hx; unfold fd_dup2; rewrite Hx.
  eexists; split; [reflexivity|]; simpl; rewrite Z.eqb_refl.
  split; [reflexivity|]; split.
  - destruct (Z.eqb x y) eqn:E; [reflexivity|].
    apply Z.eqb_neq in E; rewrite fd_lookup_remove; assumption.
  - intros z Hz; apply Z.eqb_neq in Hz as Hz'; rewrite Hz'.
    apply fd_lookup_remove; exact Hz.
Qed.

(** After the child's three [dup2] calls, stdout and stderr both refer to
    the slave. *)
Lemma run_child_fds_spec (t : FdTable) (sl : Z) (o : FileObj) :
  fd_lookup t sl = Some o ->
  exists t3, run_child_fds t sl = Done t3 /\
             fd_lookup t3 0 = Some o /\ fd_lookup t3 1 = Some o /\ fd_lookup t3 2 = Some o.
Proof.
  intros H.
  destruct (fd_dup2_lookup t sl 0 o H) as [t0 [E0 [H00 [H0s H0z]]]].
  destruct (fd_dup2_lookup t0 sl 1 o H0s) as [t1 [E1 [H11 [H1s H1z]]]].
  destruct (fd_dup2_lookup t1 sl 2 o H1s) as [t2 [E2 [H22 [H2s H2z]]]].
  exists t2; unfold run_child_fds; rewrite E0; simpl; rewrite E1; simpl; rewrite E2; simpl.
  split; [reflexivity|].
  rewrite (H2z 0 ltac:(lia)), (H1z 0 ltac:(lia)), (H2z 1 ltac:(lia)).
  auto.
Qed.

Lemma pty_output_all (t : FdTable) (n : nat) (ws : list (Z * string)) :
  Forall (fun w => fd_lookup t (fst w) = Some (PtySlave n)) ws ->
  pty_output t n ws = merged_output ws.
Proof.
  induction 1 as [|[fd s] ws Hw _ IH]; [reflexivity|].
  simpl in *; rewrite Hw, Nat.eqb_refl, IH; reflexivity.
Qed.

Lemma openpty_spec (s s1 : Sys) (m sl : Z) :
  openpty s = Some (m, sl, s1) ->
  sl = m + 1 /\
  sys_fds s1 = (m + 1, PtySlave (sys_next_pty s)) :: (m, PtyMaster (sys_next_pty s)) :: sys_fds s /\
  sys_fork_ok s1 = sys_fork_ok s.
Proof.
  unfold openpty; destruct (sys_ptys_left s); [discriminate|].
  intros H; inversion H; subst; simpl; auto.
Qed.

(** When the pty and the fork succeed, [run] returns whatever its status
    mapping returns; for a mapped status it blocks while the child is
    alive and otherwise returns what the child wrote through descriptors
    1 and 2, both of which refer to the one pty slave. *)
Lemma run_spec (e : RunEnv) (exe : string) (argv : list string) :
  sys_ptys_left (r_sys e) <> O -> sys_fork_ok (r_sys e) = true ->
  exists n t3,
    fd_lookup t3 1 = Some (PtySlave n) /\ fd_lookup t3 2 = Some (PtySlave n) /\
    run e exe argv =
    match run_code (r_wait e) with
    | Done c =>
        if child_alive (r_wait e) then None
        else Some (Done {| cr_stdout := read_to_string (onlcr (pty_output t3 n (r_writes e)));
                           cr_stderr := "TODO"; code := c |})
    | Fail x => Some (Fail x)
    | Panicked => Some Panicked
    end.
Proof.
  intros Hp Hf; unfold run.
  destruct (openpty (r_sys e)) as [[[m sl] s1]|] eqn:Eo.
  2:{ unfold openpty in Eo; destruct (sys_ptys_left (r_sys e)); [contradiction | discriminate]. }
  destruct (openpty_spec _ _ _ _ Eo) as [-> [Hfds Hok]].
  assert (Hslave : fd_lookup (sys_fds s1) (m + 1) = Some (PtySlave (sys_next_pty (r_sys e)))).
  { rewrite Hfds; simpl; rewrite Z.eqb_refl; reflexivity. }
  destruct (run_child_fds_spec _ _ _ Hslave) as [t3 [Ech [_ [H1 H2]]]].
  exists (sys_next_pty (r_sys e)), t3; split; [exact H1|]; split; [exact H2|].
  rewrite Hok, Hf; simpl; unfold fd_close; rewrite Hslave; simpl.
  destruct (run_code (r_wait e)) as [c| x |]; simpl; try reflexivity.
  unfold read_master; rewrite Ech.
  rewrite fd_lookup_remove by lia; rewrite Hfds; simpl.
  assert (Hne : Z.eqb m (m + 1) = false) by (apply Z.eqb_neq; lia).
  rewrite Hne, Z.eqb_refl.
  destruct (child_alive (r_wait e)); reflexivity.
Qed.

(** ** Lemmas on the session model *)

Lemma stdio_eqb_neq (k k' : StdioType) : k <> k' -> stdio_eqb k k' = false.
Proof. destruct k, k'; simpl; congruence. Qed.

Lemma stdio_eqb_true (k k' : StdioType) : stdio_eqb k k' = true -> k = k'.
Proof. destruct k, k'; simpl; congruence. Qed.

Lemma mem_cons_neq (k k0 : StdioType) (ks : list StdioType) :
  k <> k0 -> mem k (k0 :: ks) = mem k ks.
Proof. intros H; unfold mem; simpl; rewrite stdio_eqb_neq by exact H; reflexivity. Qed.

Lemma mem_cons_same (k : StdioType) (ks : list StdioType) : mem k (k :: ks) = true.
Proof. unfold mem; simpl; rewrite stdio_eqb_refl; reflexivity. Qed.

Lemma mem_false (k : StdioType) (ks : list StdioType) : ~ In k ks -> mem k ks = false.
Proof.
  induction ks as [|k0 ks IH]; intros H; [reflexivity|].
  rewrite mem_cons_neq; [apply IH; intros Hi; apply H; right; exact Hi|].
  intros ->; apply H; left; reflexivity.
Qed.

Lemma mem_true (k : StdioType) (ks : list StdioType) : mem k ks = true -> In k ks.
Proof.
  unfold mem; intros H; apply existsb_exists in H as [x [Hx Heq]].
  apply stdio_eqb_true in Heq; subst; exact Hx.
Qed.

Lemma buf_set_same (st : Session) (k : StdioType) (b : list PtyLine) : buf (set_buf st k b) k = b.
Proof. destruct k; reflexivity. Qed.

Lemma buf_set_other (st : Session) (k k' : StdioType) (b : list PtyLine) :
  k <> k' -> buf (set_buf st k' b) k = buf st k.
Proof. destruct k, k'; simpl; congruence. Qed.

Lemma set_buf_frame (st : Session) (k : StdioType) (b : list PtyLine) :
  todo (set_buf st k b) = todo st /\ child_end (set_buf st k b) = child_end st /\
  watched (set_buf st k b) = watched st /\ phase (set_buf st k b) = phase st /\
  trace (set_buf st k b) = trace st /\ readers (set_buf st k b) = readers st.
Proof. destruct k; repeat split. Qed.

Lemma child_dead_set_buf (st : Session) (k : StdioType) (b : list PtyLine) :
  child_dead (set_buf st k b) = child_dead st.
Proof. destruct k; reflexivity. Qed.

Lemma key_step_absent (d : bool) (b b' : list PtyLine) (m' : bool) (it : option string) :
  key_step d false b m' b' it -> m' = false /\ b' = b /\ it = None.
Proof. intros H; inversion H; auto. Qed.

Lemma pmap_next_frame (ks : list StdioType) : forall st,
  let st' := snd (pmap_next ks st) in
  todo st' = todo st /\ child_end st' = child_end st /\ watched st' = watched st /\
  phase st' = phase st /\ trace st' = trace st.
Proof.
  induction ks as [|k0 ks IH]; intros st; simpl; [auto|].
  unfold poll_pty.
  destruct (buf st k0) as [|[s|] b].
  - destruct (child_dead st); [apply IH|].
    specialize (IH st); destruct (pmap_next ks st) as [[[|[[k s]|]] ks''] st2]; exact IH.
  - destruct (set_buf_frame st k0 b) as [? [? [? [? [? ?]]]]]; auto.
  - destruct (set_buf_frame st k0 b) as [? [? [? [? [? ?]]]]].
    destruct (IH (set_buf st k0 b)) as [? [? [? [? ?]]]]; repeat split; congruence.
Qed.

Lemma pmap_next_keys (ks : list StdioType) : forall st, NoDup ks -> forall k,
  key_step (child_dead st) (mem k ks) (buf st k)
    (mem k (snd (fst (pmap_next ks st)))) (buf (snd (pmap_next ks st)) k)
    (item_for k (fst (fst (pmap_next ks st)))).
Proof.
  induction ks as [|k0 ks IH]; intros st Hnd k; [constructor|].
  inversion Hnd as [|? ? Hnin Hnd1]; subst.
  cbn [pmap_next]; unfold poll_pty.
  destruct (buf st k0) as [|[s|] b] eqn:Eb.
  - destruct (child_dead st) eqn:Ed.
    + destruct (stdio_eqb k k0) eqn:Ek.
      * apply stdio_eqb_true in Ek; subst k.
        pose proof (IH st Hnd1 k0) as H; rewrite (mem_false _ _ Hnin) in H.
        apply key_step_absent in H as [-> [-> ->]].
        rewrite mem_cons_same, Eb; constructor; reflexivity.
      * assert (Hne : k <> k0) by (intros ->; rewrite stdio_eqb_refl in Ek; discriminate).
        rewrite mem_cons_neq by exact Hne; pose proof (IH st Hnd1 k) as H; rewrite Ed in H; exact H.
    + pose proof (IH st Hnd1 k) as H.
      destruct (pmap_next ks st) as [[p ks''] st2] eqn:Ep; cbn [fst snd] in *.
      assert (Hit : item_for k (match p with Ready None => Pending | _ => p end) = item_for k p)
        by (destruct p as [|[[? ?]|]]; reflexivity).
      replace (fst (fst match p with
                        | Ready None => (Pending, k0 :: ks'', st2)
                        | _ => (p, k0 :: ks'', st2) end)) with
              (match p with Ready None => Pending | _ => p end)
        by (destruct p as [|[[? ?]|]]; reflexivity).
      replace (snd (fst match p with
                        | Ready None => (Pending, k0 :: ks'', st2)
                        | _ => (p, k0 :: ks'', st2) end)) with (k0 :: ks'')
        by (destruct p as [|[[? ?]|]]; reflexivity).
      replace (snd match p with
                   | Ready None => (Pending, k0 :: ks'', st2)
                   | _ => (p, k0 :: ks'', st2) end) with st2
        by (destruct p as [|[[? ?]|]]; reflexivity).
      rewrite Hit.
      destruct (stdio_eqb k k0) eqn:Ek.
      * apply stdio_eqb_true in Ek; subst k.
        rewrite (mem_false _ _ Hnin) in H.
        apply key_step_absent in H as [_ [-> ->]].
        rewrite !mem_cons_same; constructor.
      * assert (Hne : k <> k0) by (intros ->; rewrite stdio_eqb_refl in Ek; discriminate).
        rewrite !mem_cons_neq by exact Hne; rewrite Ed in H; exact H.
  - cbn [fst snd].
    destruct (stdio_eqb k k0) eqn:Ek.
    + apply stdio_eqb_true in Ek; subst k.
      rewrite mem_cons_same, buf_set_same, Eb; cbn; rewrite stdio_eqb_refl; constructor.
    + assert (Hne : k <> k0) by (intros ->; rewrite stdio_eqb_refl in Ek; discriminate).
      cbn [item_for]; rewrite Ek, buf_set_other by exact Hne; constructor.
  - pose proof (IH (set_buf st k0 b) Hnd1 k) as H.
    rewrite child_dead_set_buf in H.
    destruct (stdio_eqb k k0) eqn:Ek.
    + apply stdio_eqb_true in Ek; subst k.
      rewrite (mem_false _ _ Hnin), buf_set_same in H.
      apply key_step_absent in H as [-> [-> ->]].
      rewrite mem_cons_same, Eb; constructor.
    + assert (Hne : k <> k0) by (intros ->; rewrite stdio_eqb_refl in Ek; discriminate).
      rewrite mem_cons_neq by exact Hne; rewrite buf_set_other in H by exact Hne; exact H.
Qed.

Lemma pmap_next_nodup (ks : list StdioType) : forall st, NoDup ks ->
  NoDup (snd (fst (pmap_next ks st))) /\ incl (snd (fst (pmap_next ks st))) ks.
Proof.
  induction ks as [|k0 ks IH]; intros st Hnd; simpl; [split; [constructor | intros x []]|].
  inversion Hnd as [|? ? Hnin Hnd1]; subst.
  unfold poll_pty.
  destruct (buf st k0) as [|[s|] b].
  - destruct (child_dead st).
    + destruct (IH st Hnd1) as [H1 H2]; split; [exact H1|].
      intros x Hx; right; apply H2; exact Hx.
    + destruct (IH st Hnd1) as [H1 H2].
      destruct (pmap_next ks st) as [[p ks''] st2]; simpl in H1, H2.
      assert (Hc : NoDup (k0 :: ks'') /\ incl (k0 :: ks'') (k0 :: ks)).
      { split.
        - constructor; [intros Hi; apply Hnin, H2, Hi | exact H1].
        - intros x [<-|Hx]; [left; reflexivity | right; apply H2, Hx]. }
      destruct p as [|[[? ?]|]]; exact Hc.
  - simpl; split; [exact Hnd | intros x Hx; exact Hx].
  - destruct (IH (set_buf st k0 b) Hnd1) as [H1 H2]; split; [exact H1|].
    intros x Hx; right; apply H2; exact Hx.
Qed.

Lemma pmap_next_none (ks : list StdioType) : forall st,
  fst (fst (pmap_next ks st)) = Ready None -> snd (fst (pmap_next ks st)) = [].
Proof.
  induction ks as [|k0 ks IH]; intros st; simpl; [auto|].
  unfold poll_pty.
  destruct (buf st k0) as [|[s|] b].
  - destruct (child_dead st); [apply IH|].
    destruct (pmap_next ks st) as [[[|[[? ?]|]] ks''] st2]; simpl; discriminate.
  - simpl; discriminate.
  - apply IH.
Qed.

Lemma pmap_next_dead (ks : list StdioType) : forall st,
  child_dead st = true -> fst (fst (pmap_next ks st)) <> Pending.
Proof.
  induction ks as [|k0 ks IH]; intros st Hd; simpl; [discriminate|].
  unfold poll_pty.
  destruct (buf st k0) as [|[s|] b].
  - rewrite Hd; apply IH, Hd.
  - simpl; discriminate.
  - apply IH; rewrite child_dead_set_buf; exact Hd.
Qed.

Lemma good_lines_app (C l : list PtyLine) :
  ~ In LBad C -> good_lines (C ++ l) = good_lines C ++ good_lines l.
Proof.
  induction C as [|[s|] C IH]; intros H; simpl; [reflexivity| |].
  - rewrite IH; [reflexivity|]; intros Hi; apply H; right; exact Hi.
  - exfalso; apply H; left; reflexivity.
Qed.

Lemma key_inv_step (full : list PtyLine) (d m m' : bool) (b b' pend : list PtyLine)
    (ys : list string) (it : option string) :
  key_inv full d m b pend ys -> key_step d m b m' b' it -> (d = true -> pend = []) ->
  key_inv full d m' b' pend (ys ++ opt_list it).
Proof.
  intros Hk Hs Hp; inversion Hs; subst; simpl in *.
  - rewrite app_nil_r; exact Hk.
  - destruct Hk as [C [HC [Heq ->]]].
    exists (C ++ [LOk s]); split; [|split].
    + intros Hi; apply in_app_or in Hi as [Hi|[Hi|[]]]; [exact (HC Hi) | discriminate].
    + rewrite <- Heq, <- app_assoc; reflexivity.
    + rewrite good_lines_app by exact HC; reflexivity.
  - destruct Hk as [C [HC [Heq ->]]]; split.
    + rewrite <- Heq, good_lines_app by exact HC; simpl; rewrite !app_nil_r; reflexivity.
    + left; rewrite <- Heq; apply in_or_app; right; left; reflexivity.
  - destruct Hk as [C [HC [Heq ->]]]; rewrite (Hp eq_refl) in Heq; simpl in Heq.
    rewrite app_nil_r in Heq; subst full; split; [rewrite app_nil_r; reflexivity | right; reflexivity].
Qed.

Lemma key_inv_push (full : list PtyLine) (d d' m : bool) (b pend : list PtyLine) (l : PtyLine)
    (ys : list string) :
  key_inv full d m b (l :: pend) ys -> (d = true -> d' = true) ->
  key_inv full d' m (b ++ [l]) pend ys.
Proof.
  destruct m; simpl.
  - intros [C [HC [Heq ->]]] _; exists C; split; [exact HC|]; split; [|reflexivity].
    rewrite <- Heq, <- app_assoc; reflexivity.
  - intros [-> [H|H]] Hd; split; auto.
Qed.

Lemma key_inv_dead (full : list PtyLine) (d d' m : bool) (b pend : list PtyLine) (ys : list string) :
  key_inv full d m b pend ys -> (d = true -> d' = true) -> key_inv full d' m b pend ys.
Proof. destruct m; simpl; [auto|]. intros [-> [H|H]] Hd; split; auto. Qed.

Lemma child_dead_todo (st : Session) : child_dead st = true -> todo st = [].
Proof. unfold child_dead; destruct (todo st); [reflexivity | discriminate]. Qed.

Lemma session_inv_start (h : XChildHandle) (prog : list (StdioType * PtyLine)) (ws : WaitStatus) :
  session_inv h prog ws (session_start prog ws).
Proof.
  split; [reflexivity|]; split; [repeat constructor; simpl; intuition discriminate|].
  split; [intros w H; discriminate|]; split; [|reflexivity].
  intros k; destruct k; simpl; exists []; repeat split; auto.
Qed.

Lemma pty_lines_cons (k k0 : StdioType) (l : PtyLine) (rest : list (StdioType * PtyLine)) :
  pty_lines k ((k0, l) :: rest) = if stdio_eqb k k0 then l :: pty_lines k rest else pty_lines k rest.
Proof. unfold pty_lines; simpl; destruct (stdio_eqb k k0); reflexivity. Qed.

Lemma yielded_app (a b : list Event) : yielded (a ++ b) = yielded a ++ yielded b.
Proof. induction a as [|[k s|fd] a IH]; simpl; [reflexivity | rewrite IH; reflexivity | exact IH]. Qed.

Lemma tag_lines_app (k : StdioType) (a b : list (StdioType * string)) :
  tag_lines k (a ++ b) = tag_lines k a ++ tag_lines k b.
Proof. unfold tag_lines; rewrite filter_app, map_app; reflexivity. Qed.

Lemma tag_yield (k k0 : StdioType) (s : string) (tr : list Event) :
  tag_lines k (yielded (tr ++ [EYield k0 s])) =
  tag_lines k (yielded tr) ++ opt_list (item_for k (Ready (Some (k0, s)))).
Proof.
  rewrite yielded_app, tag_lines_app; simpl; unfold tag_lines; simpl.
  destruct (stdio_eqb k k0); reflexivity.
Qed.

Lemma tag_close (k : StdioType) (tr : list Event) (a b : Z) :
  tag_lines k (yielded (tr ++ [EClose a; EClose b])) = tag_lines k (yielded tr).
Proof. rewrite yielded_app, app_nil_r; reflexivity. Qed.

Lemma yield_events_app (a b : list (StdioType * string)) :
  yield_events (a ++ b) = yield_events a ++ yield_events b.
Proof. apply map_app. Qed.

Lemma session_inv_child (h : XChildHandle) (prog : list (StdioType * PtyLine)) (ws : WaitStatus)
    (cap : nat) (st : Session) :
  session_inv h prog ws st -> session_inv h prog ws (child_step cap st).
Proof.
  unfold child_step.
  destruct (todo st) as [|[k0 l] rest] eqn:Et; [auto|].
  destruct (Nat.ltb (List.length (buf st k0)) cap); [|auto].
  intros [He [Hnd [Hw [Hk Hph]]]].
  assert (Hd : child_dead st = false) by (unfold child_dead; rewrite Et; reflexivity).
  destruct (set_buf_frame st k0 (buf st k0 ++ [l])) as [F1 [F2 [F3 [F4 [F5 F6]]]]].
  split; [cbn; congruence|]; split; [cbn; congruence|]; split.
  { intros w Hs; cbn in Hs; rewrite F3 in Hs; destruct (Hw w Hs) as [_ Ht]; congruence. }
  split; [|cbn [set_todo phase trace watched readers]; rewrite F3, F4, F5, F6; exact Hph].
  intros k; cbn [todo readers set_todo]; rewrite F6.
  specialize (Hk k); rewrite Et, pty_lines_cons, Hd in Hk.
  replace (buf (set_todo (set_buf st k0 (buf st k0 ++ [l])) rest) k)
    with (buf (set_buf st k0 (buf st k0 ++ [l])) k) by (destruct k; reflexivity).
  replace (trace (set_todo (set_buf st k0 (buf st k0 ++ [l])) rest)) with (trace st)
    by (cbn; congruence).
  destruct (stdio_eqb k k0) eqn:Ek.
  - apply stdio_eqb_true in Ek; subst k0.
    rewrite buf_set_same; eapply key_inv_push; [exact Hk | discriminate].
  - assert (Hne : k <> k0) by (intros ->; rewrite stdio_eqb_refl in Ek; discriminate).
    rewrite buf_set_other by exact Hne; eapply key_inv_dead; [exact Hk | discriminate].
Qed.

Lemma session_inv_watcher (h : XChildHandle) (prog : list (StdioType * PtyLine)) (ws : WaitStatus)
    (st : Session) :
  session_inv h prog ws st -> session_inv h prog ws (watcher_step st).
Proof.
  unfold watcher_step.
  destruct (todo st) eqn:Et; [|auto]; destruct (watched st) eqn:Ew; [auto|].
  intros [He [Hnd [Hw [Hk Hph]]]].
  split; [exact He|]; split; [exact Hnd|]; split.
  - intros w Hs; cbn in Hs; injection Hs as <-; split; [exact He | exact Et].
  - split; [exact Hk|]; cbn; destruct (phase st); try exact Hph.
    destruct Hph as [Hs _]; congruence.
Qed.

Lemma parent_keys (h : XChildHandle) (prog : list (StdioType * PtyLine)) (ws : WaitStatus)
    (st st1 : Session) (p : Poll (option (StdioType * string))) (ks : list StdioType) :
  session_inv h prog ws st -> pmap_next (readers st) st = (p, ks, st1) ->
  forall k, key_inv (pty_lines k prog) (child_dead st) (mem k ks) (buf st1 k)
              (pty_lines k (todo st)) (tag_lines k (yielded (trace st)) ++ opt_list (item_for k p)).
Proof.
  intros [He [Hnd [Hw [Hk Hph]]]] E k.
  pose proof (pmap_next_keys (readers st) st Hnd k) as Hs; rewrite E in Hs; cbn [fst snd] in Hs.
  eapply key_inv_step; [exact (Hk k) | exact Hs |].
  intros Hd; rewrite (child_dead_todo _ Hd); reflexivity.
Qed.

Lemma inv_with_parent (h : XChildHandle) (prog : list (StdioType * PtyLine)) (ws : WaitStatus)
    (st st1 : Session) (ks : list StdioType) (ph : Phase) (tr : list Event) :
  session_inv h prog ws st ->
  todo st1 = todo st -> child_end st1 = child_end st -> watched st1 = watched st -> NoDup ks ->
  (forall k, key_inv (pty_lines k prog) (child_dead st) (mem k ks) (buf st1 k)
               (pty_lines k (todo st)) (tag_lines k (yielded tr))) ->
  match ph with
  | PLoop => tr = yield_events (yielded tr)
  | PDrain w => watched st = Some w /\ tr = yield_events (yielded tr)
  | PEnd en => en = status_end ws /\ ks = [] /\
               tr = yield_events (yielded tr) ++ [EClose (stdout h); EClose (stderr h)]
  end ->
  session_inv h prog ws (with_parent st1 ks ph tr).
Proof.
  intros [He [Hnd [Hw [Hk Hph]]]] T1 T2 T3 Nd Hk' Hph'.
  assert (Hd : child_dead (with_parent st1 ks ph tr) = child_dead st)
    by (unfold child_dead; cbn; rewrite T1, T2; reflexivity).
  split; [cbn; congruence|]; split; [exact Nd|]; split.
  - intros w Hs; cbn in Hs; rewrite T3 in Hs.
    change (todo (with_parent st1 ks ph tr)) with (todo st1); rewrite T1; apply Hw, Hs.
  - split.
    + intros k; rewrite Hd.
      change (todo (with_parent st1 ks ph tr)) with (todo st1).
      change (readers (with_parent st1 ks ph tr)) with ks.
      change (trace (with_parent st1 ks ph tr)) with tr; rewrite T1.
      replace (buf (with_parent st1 ks ph tr) k) with (buf st1 k) by (destruct k; reflexivity).
      apply Hk'.
    + change (phase (with_parent st1 ks ph tr)) with ph.
      change (trace (with_parent st1 ks ph tr)) with tr.
      change (readers (with_parent st1 ks ph tr)) with ks.
      change (watched (with_parent st1 ks ph tr)) with (watched st1); destruct ph; [exact Hph' | rewrite T3; exact Hph' | exact Hph'].
Qed.

Lemma session_inv_parent (h : XChildHandle) (prog : list (StdioType * PtyLine)) (ws : WaitStatus)
    (st : Session) :
  session_inv h prog ws st -> session_inv h prog ws (parent_step h st).
Proof.
  intros Hi; pose proof Hi as [He [Hnd [Hw [Hk Hph]]]].
  unfold parent_step.
  destruct (pmap_next (readers st) st) as [[p ks] st1] eqn:E.
  pose proof (pmap_next_frame (readers st) st) as Fr; rewrite E in Fr; cbn [snd] in Fr.
  destruct Fr as [T1 [T2 [T3 [T4 T5]]]].
  pose proof (pmap_next_nodup (readers st) st Hnd) as [Nd _]; rewrite E in Nd; cbn in Nd.
  pose proof (parent_keys h prog ws st st1 p ks Hi E) as Hk'.
  pose proof (pmap_next_none (readers st) st) as Hnone; rewrite E in Hnone; cbn in Hnone.
  destruct (phase st) as [|w|en] eqn:Eph.
  - destruct p as [|[[k0 s]|]].
    + destruct (watched st1) as [w|] eqn:Ew1; apply (inv_with_parent h prog ws st); auto; try congruence;
        try (intros k; specialize (Hk' k); rewrite app_nil_r in Hk'; exact Hk').
      all: try (split; [congruence | exact Hph]).
    + apply (inv_with_parent h prog ws st); auto.
      * intros k; rewrite tag_yield; apply Hk'.
      * rewrite yielded_app, yield_events_app, <- Hph; reflexivity.
    + destruct (watched st1) as [w|] eqn:Ew1; apply (inv_with_parent h prog ws st); auto; try congruence;
        try (intros k; specialize (Hk' k); rewrite app_nil_r in Hk'; exact Hk').
      all: try (split; [congruence | exact Hph]).
  - destruct Hph as [Hws Htr].
    destruct p as [|[[k0 s]|]].
    + apply (inv_with_parent h prog ws st); auto.
      intros k; specialize (Hk' k); rewrite app_nil_r in Hk'; exact Hk'.
    + apply (inv_with_parent h prog ws st); auto.
      * intros k; rewrite tag_yield; apply Hk'.
      * split; [exact Hws|]; rewrite yielded_app, yield_events_app, <- Htr; reflexivity.
    + apply (inv_with_parent h prog ws st); auto.
      * intros k; rewrite tag_close; specialize (Hk' k); rewrite app_nil_r in Hk'; exact Hk'.
      * destruct (Hw w Hws) as [-> _]; split; [reflexivity|]; split; [apply Hnone; reflexivity|].
        rewrite yielded_app, app_nil_r, <- Htr; reflexivity.
  - exact Hi.
Qed.

Lemma session_inv_run (h : XChildHandle) (cap : nat) (prog : list (StdioType * PtyLine))
    (ws : WaitStatus) (sch : list Actor) : forall st,
  session_inv h prog ws st -> session_inv h prog ws (run_session h cap sch st).
Proof.
  induction sch as [|a sch IH]; intros st Hi; [exact Hi|].
  apply IH; destruct a; cbn.
  - apply session_inv_child, Hi.
  - apply session_inv_watcher, Hi.
  - apply session_inv_parent, Hi.
Qed.

(** Whenever the stream has ended, it has yielded per pty exactly the lines
    before the first failed read. *)
Lemma session_ended (h : XChildHandle) (cap : nat) (prog : list (StdioType * PtyLine))
    (ws : WaitStatus) (sch : list Actor) (en : End) :
  let st := run_session h cap sch (session_start prog ws) in
  phase st = PEnd en ->
  en = status_end ws /\
  (forall k, In LBad (pty_lines k prog) \/ is_exit_or_signal ws = true) /\
  exists ys, trace st = yield_events ys ++ [EClose (stdout h); EClose (stderr h)] /\
             forall k, tag_lines k ys = good_lines (pty_lines k prog).
Proof.
  intros st Hph.
  destruct (session_inv_run h cap prog ws sch _ (session_inv_start h prog ws))
    as [He [_ [_ [Hk Hp]]]].
  fold st in He, Hk, Hp; rewrite Hph in Hp; destruct Hp as [-> [Hr Htr]].
  split; [reflexivity|].
  assert (Hk0 : forall k, tag_lines k (yielded (trace st)) = good_lines (pty_lines k prog) /\
                          (In LBad (pty_lines k prog) \/ child_dead st = true)).
  { intros k; specialize (Hk k); rewrite Hr in Hk; exact Hk. }
  split.
  - intros k; destruct (Hk0 k) as [_ [H|H]]; [left; exact H | right].
    unfold child_dead in H; destruct (todo st); [congruence | discriminate].
  - exists (yielded (trace st)); split; [exact Htr|]; intros k; apply Hk0.
Qed.

Lemma first_bad_split (C X pre post : list PtyLine) :
  ~ In LBad C -> C ++ X = pre ++ LBad :: post -> exists pre2, X = pre2 ++ LBad :: post.
Proof.
  revert pre; induction C as [|c C IH]; intros pre HC Heq; simpl in Heq.
  - exists pre; exact Heq.
  - destruct pre as [|p pre]; simpl in Heq; injection Heq as Hc Heq.
    + exfalso; apply HC; left; exact Hc.
    + apply (IH pre); [intros Hi; apply HC; right; exact Hi | exact Heq].
Qed.

Lemma first_bad_unique (C X pre post : list PtyLine) :
  ~ In LBad C -> ~ In LBad pre -> C ++ LBad :: X = pre ++ LBad :: post -> X = post.
Proof.
  revert pre; induction C as [|c C IH]; intros pre HC Hp Heq; destruct pre as [|p pre];
    simpl in Heq.
  - injection Heq as Heq; exact Heq.
  - injection Heq as Hc Heq; exfalso; apply Hp; left; symmetry; exact Hc.
  - injection Heq as Hc Heq; exfalso; apply HC; left; exact Hc.
  - injection Heq as Hc Heq.
    apply (IH pre); [intros Hi; apply HC; right; exact Hi | intros Hi; apply Hp; right; exact Hi | exact Heq].
Qed.

Lemma hang_pend (cap : nat) (pre post : list PtyLine) (m : bool) (b pend : list PtyLine) :
  (cap < List.length post)%nat -> hang_inv cap pre post m b pend -> pend <> [].
Proof.
  intros Hc [Hb Hm] ->; rewrite app_nil_r in Hm; destruct m.
  - destruct Hm as [C [HC Heq]].
    destruct (first_bad_split C b pre post HC Heq) as [pre2 ->].
    rewrite length_app in Hb; simpl in Hb; lia.
  - subst b; lia.
Qed.

Lemma hang_step (cap : nat) (pre post : list PtyLine) (m m' : bool) (b b' pend : list PtyLine)
    (it : option string) :
  ~ In LBad pre -> hang_inv cap pre post m b pend -> key_step false m b m' b' it ->
  hang_inv cap pre post m' b' pend.
Proof.
  intros Hp [Hb Hm] Hs; inversion Hs; subst; [split; assumption | | | discriminate].
  - destruct Hm as [C [HC Heq]]; simpl in Hb; split; [lia|].
    exists (C ++ [LOk s]); split.
    + intros Hi; apply in_app_or in Hi as [Hi|[Hi|[]]]; [exact (HC Hi) | discriminate].
    + rewrite <- Heq, <- app_assoc; reflexivity.
  - destruct Hm as [C [HC Heq]]; simpl in Hb; split; [lia|].
    exact (first_bad_unique C (b' ++ pend) pre post HC Hp Heq).
Qed.

Lemma hang_push (cap : nat) (pre post : list PtyLine) (m : bool) (b pend : list PtyLine) (l : PtyLine) :
  hang_inv cap pre post m b (l :: pend) -> (List.length b < cap)%nat ->
  hang_inv cap pre post m (b ++ [l]) pend.
Proof.
  intros [Hb Hm] Hlt; split; [rewrite length_app; simpl; lia|].
  destruct m.
  - destruct Hm as [C [HC Heq]]; exists C; split; [exact HC|].
    rewrite <- Heq, <- app_assoc; reflexivity.
  - rewrite <- Hm, <- app_assoc; reflexivity.
Qed.

Lemma hang_todo (cap : nat) (k : StdioType) (pre post : list PtyLine) (st : Session) :
  (cap < List.length post)%nat -> hang_state cap k pre post st -> todo st <> [].
Proof.
  intros Hc [_ [_ [_ H]]] Ht; apply (hang_pend _ _ _ _ _ _ Hc H); rewrite Ht; reflexivity.
Qed.

Lemma hang_state_step (h : XChildHandle) (cap : nat) (k : StdioType) (pre post : list PtyLine)
    (a : Actor) (st : Session) :
  ~ In LBad pre -> (cap < List.length post)%nat ->
  hang_state cap k pre post st -> hang_state cap k pre post (session_step h cap a st).
Proof.
  intros Hp Hc Hh; pose proof (hang_todo _ _ _ _ _ Hc Hh) as Ht.
  pose proof Hh as Hh0; destruct Hh as [Hw [Hph [Hnd Hk]]].
  destruct a; cbn [session_step].
  - unfold child_step.
    destruct (todo st) as [|[k0 l] rest] eqn:Et; [contradiction|].
    destruct (Nat.ltb (List.length (buf st k0)) cap) eqn:Elt; [|exact Hh0].
    apply Nat.ltb_lt in Elt.
    destruct (set_buf_frame st k0 (buf st k0 ++ [l])) as [F1 [F2 [F3 [F4 [F5 F6]]]]].
    split; [cbn [set_todo watched]; congruence|]; split; [cbn [set_todo phase]; congruence|].
    split; [cbn [set_todo readers]; congruence|].
    change (readers (set_todo (set_buf st k0 (buf st k0 ++ [l])) rest))
      with (readers (set_buf st k0 (buf st k0 ++ [l]))); rewrite F6.
    change (todo (set_todo (set_buf st k0 (buf st k0 ++ [l])) rest)) with rest.
    replace (buf (set_todo (set_buf st k0 (buf st k0 ++ [l])) rest) k)
      with (buf (set_buf st k0 (buf st k0 ++ [l])) k) by (destruct k; reflexivity).
    rewrite pty_lines_cons in Hk.
    destruct (stdio_eqb k k0) eqn:Ek.
    + apply stdio_eqb_true in Ek; subst k0.
      rewrite buf_set_same; apply hang_push; assumption.
    + assert (Hne : k <> k0) by (intros ->; rewrite stdio_eqb_refl in Ek; discriminate).
      rewrite buf_set_other by exact Hne; exact Hk.
  - unfold watcher_step; destruct (todo st); [contradiction | exact Hh0].
  - unfold parent_step; rewrite Hph.
    destruct (pmap_next (readers st) st) as [[p ks] st1] eqn:E.
    pose proof (pmap_next_frame (readers st) st) as Fr; rewrite E in Fr; cbn [snd] in Fr.
    destruct Fr as [T1 [T2 [T3 [T4 T5]]]].
    pose proof (pmap_next_nodup (readers st) st Hnd) as [Nd _]; rewrite E in Nd; cbn in Nd.
    pose proof (pmap_next_keys (readers st) st Hnd k) as Hs; rewrite E in Hs; cbn [fst snd] in Hs.
    assert (Hd : child_dead st = false)
      by (unfold child_dead; destruct (todo st); [contradiction | reflexivity]).
    rewrite Hd in Hs.
    assert (Hk' : hang_inv cap pre post (mem k ks) (buf st1 k) (pty_lines k (todo st)))
      by (eapply hang_step; eassumption).
    assert (G : forall ph tr, ph = PLoop ->
              hang_state cap k pre post (with_parent st1 ks ph tr)).
    { intros ph tr ->; split; [cbn; congruence|]; split; [reflexivity|]; split; [exact Nd|].
      change (readers (with_parent st1 ks PLoop tr)) with ks.
      change (todo (with_parent st1 ks PLoop tr)) with (todo st1); rewrite T1.
      replace (buf (with_parent st1 ks PLoop tr) k) with (buf st1 k) by (destruct k; reflexivity).
      exact Hk'. }
    rewrite T3, Hw.
    destruct p as [|[[k0 s]|]]; apply G; reflexivity.
Qed.

Lemma hang_run (h : XChildHandle) (cap : nat) (k : StdioType) (pre post : list PtyLine)
    (sch : list Actor) : forall st,
  ~ In LBad pre -> (cap < List.length post)%nat ->
  hang_state cap k pre post st -> hang_state cap k pre post (run_session h cap sch st).
Proof.
  induction sch as [|a sch IH]; intros st Hp Hc Hh; [exact Hh|].
  apply IH; [exact Hp | exact Hc | apply hang_state_step; assumption].
Qed.

Lemma hang_start (cap : nat) (k : StdioType) (prog : list (StdioType * PtyLine))
    (pre post : list PtyLine) (ws : WaitStatus) :
  pty_lines k prog = pre ++ LBad :: post ->
  hang_state cap k pre post (session_start prog ws).
Proof.
  intros Hl; split; [reflexivity|]; split; [reflexivity|].
  split; [repeat constructor; simpl; intuition discriminate|].
  split; [destruct k; simpl; lia|].
  replace (mem k (readers (session_start prog ws))) with true by (destruct k; reflexivity).
  exists []; split; [intros []|].
  replace (buf (session_start prog ws) k) with (@nil PtyLine) by (destruct k; reflexivity).
  exact Hl.
Qed.

Lemma key_step_weight (d m m' : bool) (b b' : list PtyLine) (it : option string) :
  key_step d m b m' b' it ->
  (key_weight m' b' <= key_weight m b)%nat /\ (it <> None -> (key_weight m' b' < key_weight m b)%nat).
Proof.
  intros Hs; inversion Hs; subst; simpl; split; intros; try lia; congruence.
Qed.

Lemma weight_after (st st1 : Session) (ks : list StdioType) (p : Poll (option (StdioType * string))) :
  NoDup (readers st) -> pmap_next (readers st) st = (p, ks, st1) ->
  (key_weight (mem Stdout ks) (buf st1 Stdout) + key_weight (mem Stderr ks) (buf st1 Stderr) <=
   key_weight (mem Stdout (readers st)) (buf st Stdout) +
   key_weight (mem Stderr (readers st)) (buf st Stderr))%nat /\
  (forall k s, p = Ready (Some (k, s)) ->
   (key_weight (mem Stdout ks) (buf st1 Stdout) + key_weight (mem Stderr ks) (buf st1 Stderr) <
    key_weight (mem Stdout (readers st)) (buf st Stdout) +
    key_weight (mem Stderr (readers st)) (buf st Stderr))%nat).
Proof.
  intros Hnd E.
  pose proof (pmap_next_keys (readers st) st Hnd Stdout) as H1.
  pose proof (pmap_next_keys (readers st) st Hnd Stderr) as H2.
  rewrite E in H1, H2; cbn [fst snd] in H1, H2.
  apply key_step_weight in H1 as [A1 B1]; apply key_step_weight in H2 as [A2 B2].
  split; [lia|].
  intros [|] s ->; cbn [item_for stdio_eqb] in B1, B2.
  - specialize (B1 ltac:(discriminate)); lia.
  - specialize (B2 ltac:(discriminate)); lia.
Qed.

Lemma parent_progress (h : XChildHandle) (prog : list (StdioType * PtyLine)) (ws : WaitStatus)
    (st : Session) :
  session_inv h prog ws st -> watched st = Some ws -> is_exit_or_signal ws = true ->
  phase st = PLoop \/ (exists w, phase st = PDrain w) ->
  phase (parent_step h st) = PEnd (status_end ws) \/
  ((session_weight (parent_step h st) < session_weight st)%nat /\ watched (parent_step h st) = Some ws).
Proof.
  intros Hi Hw Hx Hph; pose proof Hi as [He [Hnd [Hwi [_ Hp]]]].
  destruct (Hwi ws Hw) as [_ Ht].
  assert (Hd : child_dead st = true) by (unfold child_dead; rewrite Ht, He; exact Hx).
  pose proof (pmap_next_dead (readers st) st Hd) as Hnp.
  unfold parent_step.
  destruct (pmap_next (readers st) st) as [[p ks] st1] eqn:E.
  pose proof (pmap_next_frame (readers st) st) as Fr; rewrite E in Fr; cbn [snd] in Fr.
  destruct Fr as [T1 [T2 [T3 [T4 T5]]]].
  destruct (weight_after st st1 ks p Hnd E) as [W1 W2].
  cbn [fst] in Hnp.
  assert (Wp : forall ph tr, session_weight (with_parent st1 ks ph tr) =
     (key_weight (mem Stdout ks) (buf st1 Stdout) + key_weight (mem Stderr ks) (buf st1 Stderr)
      + phase_weight ph)%nat) by reflexivity.
  unfold session_weight at 2.
  destruct Hph as [Hph | [w Hph]]; rewrite Hph.
  - destruct p as [|[[k0 s]|]]; [exfalso; apply Hnp; reflexivity| |].
    + right; split; [rewrite Wp; specialize (W2 k0 s eq_refl); cbn [phase_weight]; lia | cbn; congruence].
    + rewrite T3, Hw; right; split; [rewrite Wp; cbn [phase_weight]; lia | cbn; congruence].
  - rewrite Hph in Hp; destruct Hp as [Hw' _]; rewrite Hw in Hw'; injection Hw' as <-.
    destruct p as [|[[k0 s]|]]; [exfalso; apply Hnp; reflexivity| |].
    + right; split; [rewrite Wp; specialize (W2 k0 s eq_refl); cbn [phase_weight]; lia | cbn; congruence].
    + left; reflexivity.
Qed.

Lemma parent_finishes (h : XChildHandle) (cap : nat) (prog : list (StdioType * PtyLine))
    (ws : WaitStatus) (n : nat) : forall st,
  session_inv h prog ws st -> watched st = Some ws -> is_exit_or_signal ws = true ->
  (session_weight st <= n)%nat ->
  exists m, phase (run_session h cap (repeat AParent m) st) = PEnd (status_end ws).
Proof.
  induction n as [|n IH]; intros st Hi Hw Hx Hn;
    (destruct (phase st) as [|w|en] eqn:Eph;
     [| | exists O; simpl; rewrite Eph; pose proof Hi as [_ [_ [_ [_ Hp]]]];
          rewrite Eph in Hp; destruct Hp as [-> _]; reflexivity]);
    (destruct (parent_progress h prog ws st Hi Hw Hx ltac:(rewrite Eph; eauto))
       as [Hend | [Hlt Hw1]]; [exists 1%nat; exact Hend|]).
  - lia.
  - lia.
  - destruct (IH (parent_step h st) (session_inv_parent h prog ws st Hi) Hw1 Hx ltac:(lia)) as [m Hm].
    exists (S m); exact Hm.
  - destruct (IH (parent_step h st) (session_inv_parent h prog ws st Hi) Hw1 Hx ltac:(lia)) as [m Hm].
    exists (S m); exact Hm.
Qed.

Lemma run_session_app (h : XChildHandle) (cap : nat) (a b : list Actor) (st : Session) :
  run_session h cap (a ++ b) st = run_session h cap b (run_session h cap a st).
Proof. revert st; induction a as [|x a IH]; intros st; [reflexivity | apply IH]. Qed.

(* NEWLEMMAS *)

(* ------------------------------------------------------------------ *)
(** ** Claims on [XChildHandle::stream] *)

(** C1 (code bug).  A child that prints one stdout line and exits 0: the
    stream yields the line, closes both masters and returns, but yields no
    [XStatus]; the last element the consumer sees is the output line, not
    [Exited(0)]. *)
Theorem C1_stream_ends_without_status :
  stream demo_handle
    {| out_reader := [RLine "line"%string; RErr]; err_reader := [RErr];
       watcher := {| join_wait := 1; wait_result := Some (Exited 100 0) |} |}
  = ([EYield Stdout "line"%string; EClose 3; EClose 5], Returned).
Proof. vm_compute; reflexivity. Qed.

(** C2.  Whatever the timing of the readers and of the exit watcher
    (including the watcher resolving while lines are still to be read),
    once [waitpid] succeeds the stream yields every line each reader
    delivers, in order per tag, and only then closes both master
    descriptors (once each) and ends. *)
Theorem C2_drain_after_exit (h : XChildHandle) (e : StreamEnv) (ws : WaitStatus) :
  wait_result (watcher e) = Some ws ->
  exists ys,
    stream h e = (yield_events ys ++ [EClose (stdout h); EClose (stderr h)], status_end ws) /\
    tag_lines Stdout ys = lines_of (out_reader e) /\
    tag_lines Stderr ys = lines_of (err_reader e).
Proof. apply stream_spec. Qed.

Lemma C2_witness :
  wait_result {| join_wait := 0; wait_result := Some (Exited 100 0) |} = Some (Exited 100 0) /\
  exists ys,
    stream demo_handle
      {| out_reader := [RPending; RPending; RLine "last"%string; RErr]; err_reader := [RErr];
         watcher := {| join_wait := 0; wait_result := Some (Exited 100 0) |} |}
    = (yield_events ys ++ [EClose 3; EClose 5], Returned) /\
    tag_lines Stdout ys = ["last"%string] /\ tag_lines Stderr ys = [].
Proof.
  split; [reflexivity|].
  exact (C2_drain_after_exit demo_handle
           {| out_reader := [RPending; RPending; RLine "last"%string; RErr]; err_reader := [RErr];
              watcher := {| join_wait := 0; wait_result := Some (Exited 100 0) |} |}
           (Exited 100 0) eq_refl).
Defined.

(** C3 (counterexample).  The child writes "a", a line whose read fails,
    then "b", and exits 0: the stream yields "a" and ends without ever
    yielding "b". *)
Lemma C3_read_error_drops_later_lines :
  phase (run_session demo_handle 2 [AChild; AChild; AParent; AChild; AWatcher; AParent; AParent]
           (session_start [(Stdout, LOk "a"%string); (Stdout, LBad); (Stdout, LOk "b"%string)]
              (Exited 100 0)))
  = PEnd Returned /\
  trace (run_session demo_handle 2 [AChild; AChild; AParent; AChild; AWatcher; AParent; AParent]
           (session_start [(Stdout, LOk "a"%string); (Stdout, LBad); (Stdout, LOk "b"%string)]
              (Exited 100 0)))
  = [EYield Stdout "a"%string; EClose 3; EClose 5].
Proof. split; vm_compute; reflexivity. Qed.

(** C3 (amended).  A failed line read silently ends that reader: the
    lines before it are yielded, no later line of that pty is, and the
    failure never reaches the consumer; the other reader is unaffected.
    Whenever the stream ends, it has yielded per pty exactly the lines
    before the first failed read, then closed both masters.  Since nothing
    reads the failed pty any more, a child that writes more lines to it
    than the pty buffers blocks: [waitpid] never returns and the stream
    never ends.  Once [waitpid] has reported [Exited] or [Signaled], the
    stream ends normally after finitely many steps of its own. *)
Theorem C3_failed_read_ends_reader (h : XChildHandle) (cap : nat)
    (prog : list (StdioType * PtyLine)) (ws : WaitStatus) (sch : list Actor) :
  let st := run_session h cap sch (session_start prog ws) in
  (forall en, phase st = PEnd en ->
     en = status_end ws /\
     exists ys, trace st = yield_events ys ++ [EClose (stdout h); EClose (stderr h)] /\
                forall k, tag_lines k ys = good_lines (pty_lines k prog)) /\
  (forall k pre post, pty_lines k prog = pre ++ LBad :: post -> ~ In LBad pre ->
     (cap < List.length post)%nat ->
     watched st = None /\ phase st = PLoop) /\
  (is_exit_or_signal ws = true -> watched st <> None ->
     exists n, phase (run_session h cap (sch ++ repeat AParent n) (session_start prog ws))
               = PEnd Returned).
Proof.
  intros st; split; [|split].
  - intros en Hen; destruct (session_ended h cap prog ws sch en Hen) as [He [_ Hys]].
    split; [exact He | exact Hys].
  - intros k pre post Hl Hp Hc.
    destruct (hang_run h cap k pre post sch _ Hp Hc (hang_start cap k prog pre post ws Hl))
      as [Hw [Hph _]].
    split; assumption.
  - intros Hx Hw.
    pose proof (session_inv_run h cap prog ws sch _ (session_inv_start h prog ws)) as Hi.
    fold st in Hi.
    destruct (watched st) as [w|] eqn:Ew; [|contradiction].
    pose proof Hi as [_ [_ [Hwi _]]]; destruct (Hwi w Ew) as [-> _].
    destruct (parent_finishes h cap prog ws (session_weight st) st Hi Ew Hx (le_n _)) as [m Hm].
    exists m; rewrite run_session_app; fold st.
    rewrite Hm; destruct ws; try discriminate; reflexivity.
Qed.

Lemma C3_witness :
  phase (run_session demo_handle 1 [AChild; AParent; AChild; AChild; AWatcher; AParent; AParent; AParent]
           (session_start [(Stdout, LOk "a"%string); (Stdout, LBad); (Stderr, LOk "e"%string)]
              (Exited 100 0))) = PEnd Returned /\
  trace (run_session demo_handle 1 [AChild; AParent; AChild; AChild; AWatcher; AParent; AParent; AParent]
           (session_start [(Stdout, LOk "a"%string); (Stdout, LBad); (Stderr, LOk "e"%string)]
              (Exited 100 0)))
  = [EYield Stdout "a"; EYield Stderr "e"; EClose 3; EClose 5]%string /\
  (watched (run_session demo_handle 1 [AChild; AChild; AParent; AChild; AWatcher; AParent]
              (session_start [(Stdout, LBad); (Stdout, LOk "b"%string); (Stdout, LOk "c"%string)]
                 (Exited 100 0))) = None /\
   phase (run_session demo_handle 1 [AChild; AChild; AParent; AChild; AWatcher; AParent]
              (session_start [(Stdout, LBad); (Stdout, LOk "b"%string); (Stdout, LOk "c"%string)]
                 (Exited 100 0))) = PLoop).
Proof.
  split; [vm_compute; reflexivity|]; split; [vm_compute; reflexivity|].
  destruct (C3_failed_read_ends_reader demo_handle 1
              [(Stdout, LBad); (Stdout, LOk "b"%string); (Stdout, LOk "c"%string)]
              (Exited 100 0) [AChild; AChild; AParent; AChild; AWatcher; AParent]) as [_ [Hb _]].
  apply (Hb Stdout [] [LOk "b"%string; LOk "c"%string]); [reflexivity | intros [] | simpl; lia].
Defined.

(** C5.  In one biased select, if some reader has a line available, the
    output branch is taken, whatever the state of the exit watcher (also
    when it has already resolved). *)
Theorem C5_output_before_exit (m : StreamMap) (j : JoinHandle) (k : StdioType) (s : string) (r : Reader) :
  In (k, RLine s :: r) m ->
  exists k' s' m', select_biased m j = SelOutput k' s' m'.
Proof.
  intros Hin; destruct (map_next_line_ready m k s r Hin) as [k' [s' [m' E]]].
  exists k', s', m'; unfold select_biased; rewrite E; reflexivity.
Qed.

Lemma C5_witness :
  In (Stderr, [RLine "x"%string]) [(Stdout, [RPending]); (Stderr, [RLine "x"%string])] /\
  exists k' s' m',
    select_biased [(Stdout, [RPending]); (Stderr, [RLine "x"%string])]
                  {| join_wait := 0; wait_result := Some (Exited 100 0) |}
    = SelOutput k' s' m'.
Proof.
  split; [simpl; right; left; reflexivity|].
  apply (C5_output_before_exit _ _ Stderr "x"%string []).
  simpl; right; left; reflexivity.
Defined.

(* ------------------------------------------------------------------ *)
(** ** Claims on the builder and [spawn] *)

(** C4 (code bug).  An interior NUL in the executable path (which is also
    argv[0] of the exec'd program) makes the builder panic before [spawn]
    runs, instead of the encoding error the caller gets for the same
    string given as an argument. *)
Theorem C4_nul_path_no_encoding_error :
  spawn_command demo_sys (String Ascii.zero "bin") [] = (Panicked, demo_sys, None) /\
  spawn_command demo_sys "/usr/bin/task"%string [String Ascii.zero "bin"]
  = (Fail (CStringError (String Ascii.zero "bin")), demo_sys, None).
Proof. split; vm_compute; reflexivity. Qed.

(** C7 (code bug).  Spawning a path execve cannot load: the parent gets a
    handle, the child exits with status 1, and the handle's stream (both
    masters at EOF, [waitpid] reporting [Exited(100, 1)]) closes the
    descriptors and ends without yielding any exit status. *)
Theorem C7_missing_exe_stream_has_no_status :
  (exists s', spawn_command demo_sys "/nonexistent"%string [] =
              (Done demo_handle, s', Some (100, ChildExit 1))) /\
  child_status (100, ChildExit 1) = Some (Exited 100 1) /\
  stream demo_handle
    {| out_reader := [RErr]; err_reader := [RErr];
       watcher := {| join_wait := 0; wait_result := child_status (100, ChildExit 1) |} |}
  = ([EClose 3; EClose 5], Returned).
Proof.
  split; [eexists; vm_compute; reflexivity|].
  split; vm_compute; reflexivity.
Qed.

(** C10.  A NUL in the executable path makes [XCommand::builder] panic,
    while [arg] and [args] return the CString error for the same string. *)
Theorem C10_nul_path_panics (p : string) (b : XCommandBuilder) :
  has_nul p = true ->
  builder_new p = Panicked /\
  builder_arg b p = Fail (CStringError p) /\
  builder_args b [p] = Fail (CStringError p).
Proof.
  intros Hp; unfold builder_new, builder_arg, builder_args, path_to_cstring; simpl;
    unfold cstring_new; rewrite Hp; repeat split.
Qed.

Lemma C10_witness :
  has_nul (String Ascii.zero "bin") = true /\
  builder_new (String Ascii.zero "bin") = Panicked /\
  builder_arg {| b_command := "x"; b_args := []; b_env := [] |} (String Ascii.zero "bin")
    = Fail (CStringError (String Ascii.zero "bin")) /\
  builder_args {| b_command := "x"; b_args := []; b_env := [] |} [String Ascii.zero "bin"]
    = Fail (CStringError (String Ascii.zero "bin")).
Proof.
  split; [reflexivity|].
  apply C10_nul_path_panics; reflexivity.
Defined.

(* ------------------------------------------------------------------ *)
(** ** Claims on wait statuses and on main.rs [run] *)

(** C6 (counterexample).  Neither [run] nor [XChildHandle::stream] aborts
    on a [Stopped] child.  The stopped child still holds the pty slaves, so
    main.rs [run] blocks in [read_to_string] on a master that never sees end
    of file.  The stream yields the child's line "x", enters its drain
    and then sits in a state that no step of the child, the watcher or the
    stream changes: it never ends, so it never reaches its panic. *)
Lemma C6_stopped_child_blocks :
  run {| r_sys := demo_sys; r_writes := [(1, "x"%string)]; r_wait := Some (Stopped 100 SIGSTOP) |}
      "/usr/bin/task"%string []
  = None /\
  phase (run_session demo_handle 1 [AChild; AWatcher; AParent; AParent; AParent]
           (session_start [(Stdout, LOk "x"%string)] (Stopped 100 SIGSTOP)))
  = PDrain (Stopped 100 SIGSTOP) /\
  trace (run_session demo_handle 1 [AChild; AWatcher; AParent; AParent; AParent]
           (session_start [(Stdout, LOk "x"%string)] (Stopped 100 SIGSTOP)))
  = [EYield Stdout "x"%string] /\
  (forall a, session_step demo_handle 1 a
               (run_session demo_handle 1 [AChild; AWatcher; AParent; AParent; AParent]
                  (session_start [(Stdout, LOk "x"%string)] (Stopped 100 SIGSTOP)))
             = run_session demo_handle 1 [AChild; AWatcher; AParent; AParent; AParent]
                 (session_start [(Stdout, LOk "x"%string)] (Stopped 100 SIGSTOP))).
Proof.
  split; [vm_compute; reflexivity|]; split; [vm_compute; reflexivity|].
  split; [vm_compute; reflexivity|].
  intros []; vm_compute; reflexivity.
Qed.

(** C6 (amended).  A status outside [Exited] / [Signaled] means the child
    is still alive and holds both pty slaves, so no master reaches end of
    file.  [XChildHandle::stream] then ends (with its panic, after closing
    both masters) only if both readers had already stopped on a failed
    read; otherwise it never leaves its drain.  main.rs [run] maps
    [Stopped(_, sig)] to the code [sig] and then blocks for ever in
    [read_to_string]; for the other statuses it returns an error. *)
Theorem C6_other_status_handling (h : XChildHandle) (cap : nat)
    (prog : list (StdioType * PtyLine)) (ws : WaitStatus) (sch : list Actor)
    (e : RunEnv) (exe : string) (argv : list string) :
  is_exit_or_signal ws = false ->
  sys_ptys_left (r_sys e) <> O -> sys_fork_ok (r_sys e) = true -> r_wait e = Some ws ->
  (let st := run_session h cap sch (session_start prog ws) in
   forall en, phase st = PEnd en ->
     en = PanickedEnd /\ (forall k, In LBad (pty_lines k prog)) /\
     exists ys, trace st = yield_events ys ++ [EClose (stdout h); EClose (stderr h)] /\
                forall k, tag_lines k ys = good_lines (pty_lines k prog)) /\
  run e exe argv = match ws with
                   | Stopped _ _ => None
                   | _ => Some (Fail UnexpectedWaitStatus)
                   end.
Proof.
  intros Hx Hp Hf Hw; split.
  - intros st en Hen; destruct (session_ended h cap prog ws sch en Hen) as [He [Hb Hys]].
    split; [rewrite He; destruct ws; try discriminate; reflexivity|].
    split; [|exact Hys].
    intros k; destruct (Hb k) as [H|H]; [exact H | congruence].
  - destruct (run_spec e exe argv Hp Hf) as [n [t3 [_ [_ E]]]].
    rewrite E, Hw; destruct ws; try discriminate; reflexivity.
Qed.

Lemma C6_witness :
  is_exit_or_signal (Stopped 100 SIGSTOP) = false /\
  sys_ptys_left demo_sys <> O /\ sys_fork_ok demo_sys = true /\
  (forall en, phase (run_session demo_handle 1 [AChild; AWatcher; AParent; AParent; AParent]
                      (session_start [(Stdout, LOk "x"%string)] (Stopped 100 SIGSTOP))) = PEnd en ->
     en = PanickedEnd /\ (forall k, In LBad (pty_lines k [(Stdout, LOk "x"%string)])) /\
     exists ys, trace (run_session demo_handle 1 [AChild; AWatcher; AParent; AParent; AParent]
                      (session_start [(Stdout, LOk "x"%string)] (Stopped 100 SIGSTOP)))
                = yield_events ys ++ [EClose 3; EClose 5] /\
                forall k, tag_lines k ys = good_lines (pty_lines k [(Stdout, LOk "x"%string)])) /\
  run {| r_sys := demo_sys; r_writes := [(1, "x"%string)]; r_wait := Some (Stopped 100 SIGSTOP) |}
      "/usr/bin/task"%string [] = None.
Proof.
  split; [reflexivity|]; split; [discriminate|]; split; [reflexivity|].
  exact (C6_other_status_handling demo_handle 1 [(Stdout, LOk "x"%string)] (Stopped 100 SIGSTOP)
           [AChild; AWatcher; AParent; AParent; AParent]
           {| r_sys := demo_sys; r_writes := [(1, "x"%string)]; r_wait := Some (Stopped 100 SIGSTOP) |}
           "/usr/bin/task"%string [] eq_refl ltac:(discriminate) eq_refl eq_refl).
Defined.

(** C8.  In main.rs [run], a child killed by signal [sig] yields
    [CommandResult.code = sig as i32], which [main] passes to
    [process::exit]: the same exit code as a child that exited normally
    with that number. *)
Theorem C8_signal_number_as_exit_code (e : RunEnv) (exe : string) (argv : list string)
    (p : Pid) (sig : Signal) (cd : bool) :
  sys_ptys_left (r_sys e) <> O -> sys_fork_ok (r_sys e) = true ->
  r_wait e = Some (Signaled p sig cd) ->
  (exists r, run e exe argv = Some (Done r) /\ code r = signal_to_i32 sig) /\
  main_exit (run e exe argv) = Some (signal_to_i32 sig) /\
  main_exit (run {| r_sys := r_sys e; r_writes := r_writes e;
                    r_wait := Some (Exited p (signal_to_i32 sig)) |} exe argv)
  = Some (signal_to_i32 sig).
Proof.
  intros Hp Hf Hw.
  destruct (run_spec e exe argv Hp Hf) as [n [t3 [_ [_ E1]]]].
  destruct (run_spec {| r_sys := r_sys e; r_writes := r_writes e;
                        r_wait := Some (Exited p (signal_to_i32 sig)) |} exe argv Hp Hf)
    as [n' [t3' [_ [_ E2]]]].
  rewrite Hw in E1; simpl in E1, E2.
  split; [eexists; split; [exact E1 | reflexivity]|].
  rewrite E1, E2; split; reflexivity.
Qed.

Lemma C8_witness :
  sys_ptys_left demo_sys <> O /\ sys_fork_ok demo_sys = true /\
  (exists r, run {| r_sys := demo_sys; r_writes := []; r_wait := Some (Signaled 100 SIGKILL false) |}
                 "/usr/bin/task"%string [] = Some (Done r) /\ code r = 9) /\
  main_exit (run {| r_sys := demo_sys; r_writes := []; r_wait := Some (Signaled 100 SIGKILL false) |}
                 "/usr/bin/task"%string []) = Some 9 /\
  main_exit (run {| r_sys := demo_sys; r_writes := []; r_wait := Some (Exited 100 9) |}
                 "/usr/bin/task"%string []) = Some 9.
Proof.
  split; [discriminate|]; split; [reflexivity|].
  exact (C8_signal_number_as_exit_code
           {| r_sys := demo_sys; r_writes := []; r_wait := Some (Signaled 100 SIGKILL false) |}
           "/usr/bin/task"%string [] 100 SIGKILL false ltac:(discriminate) eq_refl eq_refl).
Defined.

(** C9 (counterexample).  What the child writes is not what [stdout]
    holds: the pty turns "a\n" into "a\r\n", and [read_to_string] drops
    output that is not valid UTF-8 (here the single byte 0xFF). *)
Lemma C9_output_translated_by_pty :
  merged_output [(1, "a" ++ String "010"%char "")%string] = ("a" ++ String "010"%char "")%string /\
  run {| r_sys := demo_sys; r_writes := [(1, "a" ++ String "010"%char "")%string];
         r_wait := Some (Exited 100 0) |} "/usr/bin/task"%string []
  = Some (Done {| cr_stdout := "a" ++ String "013"%char (String "010"%char "");
                  cr_stderr := "TODO"; code := 0 |}) /\
  run {| r_sys := demo_sys; r_writes := [(2, String "255"%char "")];
         r_wait := Some (Exited 100 0) |} "/usr/bin/task"%string []
  = Some (Done {| cr_stdout := ""; cr_stderr := "TODO"; code := 0 |}).
Proof. vm_compute; split; [|split]; reflexivity. Qed.

(** C9 (amended).  Every [CommandResult] returned by main.rs [run] has
    [stderr = "TODO"].  The child's stdin, stdout and stderr all refer to
    the one pty slave, so when the child writes only to descriptors 1 and
    2, [stdout] holds both streams merged in write order as the pty
    delivers them (each "\n" as "\r\n"), or nothing when that is not
    valid UTF-8. *)
Theorem C9_run_merges_output (e : RunEnv) (exe : string) (argv : list string) (r : CommandResult) :
  run e exe argv = Some (Done r) ->
  cr_stderr r = "TODO"%string /\
  (Forall (fun w => fst w = 1 \/ fst w = 2) (r_writes e) ->
   cr_stdout r = read_to_string (onlcr (merged_output (r_writes e)))).
Proof.
  intros H.
  assert (Hp : sys_ptys_left (r_sys e) <> O).
  { intros Hz; unfold run, openpty in H; rewrite Hz in H; discriminate. }
  assert (Hf : sys_fork_ok (r_sys e) = true).
  { destruct (sys_fork_ok (r_sys e)) eqn:Ef; [reflexivity|].
    unfold run in H; destruct (openpty (r_sys e)) as [[[m sl] s1]|] eqn:Eo; [|discriminate].
    destruct (openpty_spec _ _ _ _ Eo) as [_ [_ Hok]].
    rewrite Hok, Ef in H; discriminate. }
  destruct (run_spec e exe argv Hp Hf) as [n [t3 [H1 [H2 E]]]].
  rewrite H in E.
  destruct (run_code (r_wait e)); [|discriminate|discriminate].
  destruct (child_alive (r_wait e)); [discriminate|].
  inversion E; subst r; clear E; simpl.
  split; [reflexivity|]; intros Hw.
  rewrite pty_output_all; [reflexivity|].
  eapply Forall_impl; [|exact Hw].
  intros [fd s] [-> | ->]; simpl; assumption.
Qed.

Lemma C9_witness :
  run {| r_sys := demo_sys; r_writes := [(1, "out "%string); (2, "err"%string)];
         r_wait := Some (Exited 100 0) |} "/usr/bin/task"%string []
  = Some (Done {| cr_stdout := "out err"; cr_stderr := "TODO"; code := 0 |}) /\
  cr_stderr {| cr_stdout := "out err"; cr_stderr := "TODO"; code := 0 |} = "TODO"%string /\
  (Forall (fun w => fst w = 1 \/ fst w = 2) [(1, "out "%string); (2, "err"%string)] ->
   cr_stdout {| cr_stdout := "out err"; cr_stderr := "TODO"; code := 0 |}
   = read_to_string (onlcr (merged_output [(1, "out "%string); (2, "err"%string)]))).
Proof.
  split; [vm_compute; reflexivity|].
  apply (C9_run_merges_output
           {| r_sys := demo_sys; r_writes := [(1, "out "%string); (2, "err"%string)];
              r_wait := Some (Exited 100 0) |} "/usr/bin/task"%string []).
  vm_compute; reflexivity.
Defined.

(* ------------------------------------------------------------------ *)
(** ** Properties of the argument parsers *)

Module TaskArgsFacts.
Import TaskArgs.
Local Open Scope string_scope.

Lemma string_app_assoc (a b c : string) : (a ++ b) ++ c = a ++ (b ++ c).
Proof. induction a as [|x a IH]; simpl; [reflexivity | now rewrite IH]. Qed.

Lemma string_app_nil_r (a : string) : a ++ "" = a.
Proof. induction a as [|x a IH]; simpl; [reflexivity | now rewrite IH]. Qed.

Lemma string_app_cancel_l (a x y : string) : a ++ x = a ++ y -> x = y.
Proof. induction a as [|c a IH]; simpl; [auto | intros H; injection H; auto]. Qed.

Lemma string_length_app (a b : string) :
  String.length (a ++ b) = (String.length a + String.length b)%nat.
Proof. induction a as [|c a IH]; simpl; auto. Qed.

Lemma str_forall_app (p : ascii -> bool) (a b : string) :
  str_forall p (a ++ b) = str_forall p a && str_forall p b.
Proof. induction a as [|c a IH]; simpl; [reflexivity | rewrite IH; apply andb_assoc]. Qed.

Lemma take_while_app (p : ascii -> bool) (w r : string) :
  str_forall p w = true -> starts_with p r = false -> take_while p (w ++ r) = (w, r).
Proof.
  induction w as [|c w IH]; simpl; intros Hw Hr.
  - destruct r as [|d r]; simpl in *; [reflexivity|]. now rewrite Hr.
  - apply andb_prop in Hw as [Hc Hw]. rewrite Hc, IH by assumption. reflexivity.
Qed.

Lemma take_while_stop (p : ascii -> bool) (s : string) :
  starts_with p s = false -> take_while p s = ("", s).
Proof. intros H. exact (take_while_app p "" s eq_refl H). Qed.

Lemma word_app (w r : string) :
  is_word w = true -> starts_with is_word_char r = false -> word (w ++ r) = Some (w, r).
Proof.
  unfold is_word, word, take_while1. intros Hw Hr.
  apply andb_prop in Hw as [Hne Hw].
  rewrite take_while_app by assumption.
  destruct w; [discriminate | reflexivity].
Qed.

Lemma word_stop (s : string) : starts_with is_word_char s = false -> word s = None.
Proof. intros H. unfold word, take_while1. rewrite take_while_stop by assumption. reflexivity. Qed.

Lemma word_char_not_space (c : ascii) : is_word_char c = true -> is_multispace c = false.
Proof.
  destruct c as [b0 b1 b2 b3 b4 b5 b6 b7].
  destruct b0, b1, b2, b3, b4, b5, b6, b7; vm_compute; congruence.
Qed.

Lemma strip_prefix_app (lit r : string) : strip_prefix lit (lit ++ r) = Some r.
Proof. induction lit as [|c lit IH]; simpl; [reflexivity | rewrite Ascii.eqb_refl; exact IH]. Qed.

Lemma strip_prefix_spec (lit s r : string) : strip_prefix lit s = Some r -> s = lit ++ r.
Proof.
  revert s; induction lit as [|c lit IH]; intros s H; simpl in *.
  - congruence.
  - destruct s as [|d s]; [discriminate|].
    destruct (Ascii.eqb c d) eqn:E; [|discriminate].
    apply Ascii.eqb_eq in E; subst d. f_equal. apply IH; exact H.
Qed.

(** A word-character literal can only match the front of a word. *)
Lemma strip_prefix_word (lit n t r : string) :
  str_forall is_word_char lit = true -> str_forall is_word_char n = true ->
  starts_with is_word_char t = false ->
  strip_prefix lit (n ++ t) = Some r -> exists x, n = lit ++ x /\ r = x ++ t.
Proof.
  revert n; induction lit as [|c lit IH]; intros n Hl Hn Ht H; simpl in *.
  - exists n; split; [reflexivity | congruence].
  - apply andb_prop in Hl as [Hc Hl].
    destruct n as [|a n]; simpl in *.
    + destruct t as [|d t]; [discriminate|]. simpl in Ht.
      destruct (Ascii.eqb c d) eqn:E; [|discriminate].
      apply Ascii.eqb_eq in E; subst d. congruence.
    + apply andb_prop in Hn as [Ha Hn].
      destruct (Ascii.eqb c a) eqn:E; [|discriminate].
      apply Ascii.eqb_eq in E; subst a.
      destruct (IH n Hl Hn Ht H) as [x [-> ->]]. exists x; split; reflexivity.
Qed.

Lemma tag_some (lit s l r : string) : tag lit s = Some (l, r) -> strip_prefix lit s = Some r.
Proof. unfold tag. destruct (strip_prefix lit s); congruence. Qed.

Lemma tag_none (lit s : string) : tag lit s = None -> strip_prefix lit s = None.
Proof. unfold tag. destruct (strip_prefix lit s); congruence. Qed.

(** After a keyword matched inside a word, the [":"] of [project] fails
    unless the word was the keyword itself and a colon follows. *)
Lemma after_kw_no_colon (lit n t r : string) :
  str_forall is_word_char lit = true -> str_forall is_word_char n = true ->
  starts_with is_word_char t = false ->
  (n <> lit \/ starts_with (Ascii.eqb ":") t = false) ->
  strip_prefix lit (n ++ t) = Some r -> tag ":" r = None.
Proof.
  intros Hl Hn Ht Hor H.
  destruct (strip_prefix_word _ _ _ _ Hl Hn Ht H) as [x [Ex ->]].
  destruct x as [|a x].
  - rewrite string_app_nil_r in Ex; subst n.
    destruct Hor as [Hor|Hor]; [congruence|].
    destruct t as [|d t]; [reflexivity|].
    simpl in Hor. unfold tag; simpl. rewrite Hor. reflexivity.
  - subst n. rewrite str_forall_app in Hn. apply andb_prop in Hn as [_ Hx].
    simpl in Hx. apply andb_prop in Hx as [Ha _].
    unfold tag; cbn [strip_prefix append].
    destruct (Ascii.eqb ":" a) eqn:E; [|reflexivity].
    apply Ascii.eqb_eq in E; subst a. discriminate.
Qed.

Lemma project_none (n t : string) :
  str_forall is_word_char n = true -> starts_with is_word_char t = false ->
  (not_project_kw n = true \/ starts_with (Ascii.eqb ":") t = false) ->
  project (n ++ t) = None.
Proof.
  intros Hn Ht Hor. unfold project, alt.
  assert (Hkw : forall lit, (lit = "project" \/ lit = "proj") ->
            n <> lit \/ starts_with (Ascii.eqb ":") t = false).
  { intros lit Hlit. destruct Hor as [H|H]; [left|right; exact H].
    intros ->. destruct Hlit as [-> | ->]; vm_compute in H; discriminate. }
  destruct (tag "project" (n ++ t)) as [[l r]|] eqn:E1.
  - apply tag_some in E1. cbn [pbind].
    rewrite (after_kw_no_colon "project" n t r); [reflexivity | reflexivity | exact Hn | exact Ht | | exact E1].
    apply Hkw; left; reflexivity.
  - destruct (tag "proj" (n ++ t)) as [[l r]|] eqn:E2; [|reflexivity].
    apply tag_some in E2. cbn [pbind].
    rewrite (after_kw_no_colon "proj" n t r); [reflexivity | reflexivity | exact Hn | exact Ht | | exact E2].
    apply Hkw; right; reflexivity.
Qed.

Lemma project_kw (kw v t : string) :
  (kw = "project" \/ kw = "proj") -> is_word v = true -> starts_with is_word_char t = false ->
  project (kw ++ ":" ++ v ++ t) = Some ({| name := v |}, t).
Proof.
  intros Hkw Hv Ht.
  destruct Hkw as [-> | ->]; unfold project, pmap; cbn -[word]; rewrite word_app by assumption;
    reflexivity.
Qed.

Lemma is_word_start (w : string) : is_word w = true -> starts_with is_word_char w = true.
Proof.
  destruct w as [|c w]; intros H; [discriminate|]. unfold is_word in H; simpl in H.
  apply andb_prop in H as [H _]; exact H.
Qed.

Lemma starts_with_app (p : ascii -> bool) (a b : string) :
  starts_with p a = true -> starts_with p (a ++ b) = true.
Proof. destruct a; simpl; [discriminate | auto]. Qed.

Lemma valid_filter_start (f : Filter) :
  valid_filter f = true -> starts_with is_word_char (filter_display f) = true.
Proof.
  destruct f as [[n]|n v]; simpl; [reflexivity|].
  intros H. apply andb_prop in H as [H _]. apply andb_prop in H as [H _].
  apply starts_with_app, is_word_start, H.
Qed.

Lemma valid_modifier_start (m : Modifier) :
  valid_modifier m = true -> starts_with is_word_char (modifier_display m) = true.
Proof.
  destruct m as [d|[n]|n v]; simpl; [apply is_word_start | reflexivity |].
  intros H. apply andb_prop in H as [H _]. apply andb_prop in H as [H _].
  apply starts_with_app, is_word_start, H.
Qed.

Lemma is_word_forall (w : string) : is_word w = true -> str_forall is_word_char w = true.
Proof. unfold is_word; intros H; apply andb_prop in H as [_ H]; exact H. Qed.

Lemma filter_display_app (f : Filter) (t : string) :
  valid_filter f = true -> starts_with is_word_char t = false ->
  filter (filter_display f ++ t) = Some (f, t).
Proof.
  intros Hv Ht. unfold filter, alt.
  destruct f as [[v]|n v]; simpl in Hv.
  - unfold filter_display, project_display. simpl name.
    rewrite string_app_assoc.
    change ("project:" ++ (v ++ t)) with ("project" ++ ":" ++ v ++ t).
    unfold pmap. rewrite project_kw by (auto || assumption). reflexivity.
  - apply andb_prop in Hv as [Hv Hk]; apply andb_prop in Hv as [Hn Hv].
    unfold filter_display. rewrite !string_app_assoc.
    change ((":" ++ v) ++ t) with (":" ++ v ++ t).
    unfold pmap. rewrite project_none; [| apply is_word_forall; exact Hn | reflexivity | left; exact Hk].
    unfold filter_other. rewrite word_app by (assumption || reflexivity).
    cbn [pbind tag strip_prefix Ascii.eqb].
    unfold tag; simpl strip_prefix.
    cbn [pbind]. rewrite word_app by assumption. reflexivity.
Qed.

Lemma modifier_display_app (m : Modifier) (t : string) :
  valid_modifier m = true -> starts_with is_word_char t = false ->
  starts_with (Ascii.eqb ":") t = false ->
  modifier (modifier_display m ++ t) = Some (m, t).
Proof.
  intros Hv Ht Hc. unfold modifier, standard_modifier, alt.
  destruct m as [d|[v]|n v]; simpl in Hv.
  - unfold modifier_display, pmap.
    rewrite project_none; [| apply is_word_forall; exact Hv | exact Ht | right; exact Hc].
    unfold modifier_other. rewrite word_app by assumption. cbn [pbind].
    assert (Htag : tag ":" t = None).
    { destruct t as [|c t]; [reflexivity|].
      cbn [starts_with] in Hc. unfold tag; cbn [strip_prefix]. rewrite Hc. reflexivity. }
    rewrite Htag. cbn [pbind].
    unfold description, pmap. rewrite word_app by assumption. reflexivity.
  - unfold modifier_display, project_display. simpl name.
    rewrite string_app_assoc.
    change ("project:" ++ (v ++ t)) with ("project" ++ ":" ++ v ++ t).
    unfold pmap. rewrite project_kw by (auto || assumption). reflexivity.
  - apply andb_prop in Hv as [Hv Hk]; apply andb_prop in Hv as [Hn Hv].
    unfold modifier_display. rewrite !string_app_assoc.
    change ((":" ++ v) ++ t) with (":" ++ v ++ t).
    unfold pmap. rewrite project_none; [| apply is_word_forall; exact Hn | reflexivity | left; exact Hk].
    unfold modifier_other. rewrite word_app by (assumption || reflexivity).
    cbn [pbind tag strip_prefix Ascii.eqb].
    unfold tag; simpl strip_prefix.
    cbn [pbind]. rewrite word_app by assumption. reflexivity.
Qed.

Lemma multispace1_one (r : string) :
  starts_with is_word_char r = true -> multispace1 (" " ++ r) = Some (" ", r).
Proof.
  intros H. unfold multispace1, take_while1.
  rewrite take_while_app; [reflexivity | reflexivity |].
  destruct r as [|c r]; [discriminate|]. simpl in *. apply word_char_not_space, H.
Qed.

(** The shape of the inputs of the [repeat(0.., ..)] parsers below: items
    separated by one space. *)
Lemma repeat0_join {A} (sp : string -> PResult A) (disp : A -> string) (ok : A -> bool) :
  (forall a, ok a = true -> starts_with is_word_char (disp a) = true) ->
  (forall a, ok a = true -> sp (disp a) = Some (a, "")) ->
  (forall a r, ok a = true -> starts_with is_word_char r = true ->
     sp (disp a ++ " " ++ r) = Some (a, r)) ->
  sp "" = None ->
  forall l n, forallb ok l = true ->
  (String.length (String.concat " " (map disp l)) < n)%nat ->
  repeat0_fuel n sp (String.concat " " (map disp l)) = Some (l, "").
Proof.
  intros Hstart Hlast Hmore Hnil l.
  induction l as [|a l IH]; intros n Hok Hn.
  - destruct n as [|n]; [simpl in Hn; lia|]. simpl. rewrite Hnil. reflexivity.
  - simpl in Hok. apply andb_prop in Hok as [Ha Hl].
    destruct n as [|n]; [lia|].
    destruct l as [|b l].
    + simpl in Hn |- *. rewrite Hlast by exact Ha.
      pose proof (Hstart a Ha) as Hs.
      destruct (disp a) as [|c s] eqn:E; [discriminate|].
      simpl in Hn |- *.
      destruct n as [|n]; [lia|]. simpl. rewrite Hnil. reflexivity.
    + set (rest := String.concat " " (map disp (b :: l))).
      change (String.concat " " (map disp (a :: b :: l))) with (disp a ++ " " ++ rest) in Hn |- *.
      assert (Hr : starts_with is_word_char rest = true).
      { simpl in Hl. apply andb_prop in Hl as [Hb _].
        unfold rest; simpl. destruct l; [apply Hstart, Hb|].
        apply starts_with_app, Hstart, Hb. }
      assert (Hlen : String.length (disp a ++ " " ++ rest) =
                     (String.length (disp a) + S (String.length rest))%nat).
      { rewrite string_length_app. reflexivity. }
      cbn [repeat0_fuel]. rewrite Hmore by assumption.
      rewrite Hlen; rewrite Hlen in Hn.
      replace (Nat.eqb (String.length rest) (String.length (disp a) + S (String.length rest)))
        with false by (symmetry; apply Nat.eqb_neq; lia).
      rewrite IH; [reflexivity | exact Hl | fold rest; lia].
Qed.

Lemma filter_sp_last (f : Filter) :
  valid_filter f = true -> filter_space_or_end (filter_display f) = Some (f, "").
Proof.
  intros Hv. unfold filter_space_or_end.
  pose proof (filter_display_app f "" Hv eq_refl) as H.
  rewrite string_app_nil_r in H. rewrite H. reflexivity.
Qed.

Lemma filter_sp_more (f : Filter) (r : string) :
  valid_filter f = true -> starts_with is_word_char r = true ->
  filter_space_or_end (filter_display f ++ " " ++ r) = Some (f, r).
Proof.
  intros Hv Hr. unfold filter_space_or_end.
  rewrite filter_display_app by (assumption || reflexivity). cbn [pbind].
  unfold alt. rewrite multispace1_one by assumption. reflexivity.
Qed.

Lemma modifier_sp_last (m : Modifier) :
  valid_modifier m = true -> modifier_space_or_end (modifier_display m) = Some (m, "").
Proof.
  intros Hv. unfold modifier_space_or_end.
  pose proof (modifier_display_app m "" Hv eq_refl eq_refl) as H.
  rewrite string_app_nil_r in H. rewrite H. reflexivity.
Qed.

Lemma modifier_sp_more (m : Modifier) (r : string) :
  valid_modifier m = true -> starts_with is_word_char r = true ->
  modifier_space_or_end (modifier_display m ++ " " ++ r) = Some (m, r).
Proof.
  intros Hv Hr. unfold modifier_space_or_end.
  rewrite modifier_display_app by (assumption || reflexivity). cbn [pbind].
  unfold alt. rewrite multispace1_one by assumption. reflexivity.
Qed.

Lemma tag_colon_none (t : string) :
  starts_with (Ascii.eqb ":") t = false -> tag ":" t = None.
Proof.
  destruct t as [|c t]; [reflexivity|]. cbn [starts_with]. intros Hc.
  unfold tag; cbn [strip_prefix]. rewrite Hc. reflexivity.
Qed.

Lemma word_sp_more (w r : string) :
  is_word w = true -> starts_with is_word_char r = true ->
  word_space_or_end (w ++ " " ++ r) = Some (w, r).
Proof.
  intros Hw Hr. unfold word_space_or_end.
  rewrite word_app by (assumption || reflexivity). cbn [pbind].
  unfold alt. rewrite multispace1_one by assumption. reflexivity.
Qed.

Lemma word_sp_last (w : string) : is_word w = true -> word_space_or_end w = Some (w, "").
Proof.
  intros Hw. unfold word_space_or_end.
  pose proof (word_app w "" Hw eq_refl) as H. rewrite string_app_nil_r in H.
  rewrite H. reflexivity.
Qed.

Lemma multi_word_colon_fuel (w r : string) (ws : list string) (n : nat) :
  forallb is_word ws = true -> is_word w = true ->
  (String.length (fold_right (fun x acc => x ++ " " ++ acc) (w ++ ":" ++ r) ws) < n)%nat ->
  repeat0_fuel n word_space_or_end (fold_right (fun x acc => x ++ " " ++ acc) (w ++ ":" ++ r) ws)
  = Some (ws, w ++ ":" ++ r).
Proof.
  intros Hws Hw. revert n.
  induction ws as [|x ws IH]; intros n Hn; destruct n as [|n]; try (simpl in Hn; lia).
  - cbn [repeat0_fuel fold_right]. unfold word_space_or_end.
    rewrite word_app by (assumption || reflexivity). reflexivity.
  - simpl in Hws. apply andb_prop in Hws as [Hx Hws].
    cbn [repeat0_fuel fold_right] in Hn |- *.
    set (rest := fold_right (fun x acc => x ++ " " ++ acc) (w ++ ":" ++ r) ws) in *.
    assert (Hr : starts_with is_word_char rest = true).
    { unfold rest; destruct ws as [|y ws]; cbn [fold_right];
        apply starts_with_app, is_word_start; [exact Hw|].
      simpl in Hws; apply andb_prop in Hws as [Hy _]; exact Hy. }
    rewrite word_sp_more by assumption.
    rewrite string_length_app in Hn |- *.
    change (String.length (" " ++ rest)) with (S (String.length rest)) in Hn |- *.
    replace (Nat.eqb (String.length rest) (String.length x + S (String.length rest)))
      with false by (symmetry; apply Nat.eqb_neq; lia).
    rewrite IH; [reflexivity | exact Hws | lia].
Qed.

(** [task_args::word] takes the longest run of letters, digits, [_], [-]
    and [.], and fails on an input that does not start with one. *)
Theorem word_longest_run (w r : string) :
  is_word w = true -> starts_with is_word_char r = false ->
  word (w ++ r) = Some (w, r) /\ word r = None.
Proof. intros Hw Hr. split; [apply word_app | apply word_stop]; assumption. Qed.

Lemma word_longest_run_witness :
  is_word "task-2.x" = true /\ starts_with is_word_char ": rest" = false /\
  word ("task-2.x" ++ ": rest") = Some ("task-2.x", ": rest") /\ word ": rest" = None.
Proof.
  split; [reflexivity|]. split; [reflexivity|].
  apply word_longest_run; reflexivity.
Defined.

(** [multi_word] reads space-separated words to the end of the input;
    it stops before a word followed by a colon, leaving that word unread. *)
Theorem multi_word_words (ws : list string) (w r : string) :
  forallb is_word ws = true -> is_word w = true ->
  multi_word (String.concat " " ws) = Some (ws, "") /\
  multi_word (fold_right (fun x acc => x ++ " " ++ acc) (w ++ ":" ++ r) ws)
  = Some (ws, w ++ ":" ++ r).
Proof.
  intros Hws Hw. split.
  - unfold multi_word, repeat0.
    pose proof (repeat0_join word_space_or_end (fun x => x) is_word is_word_start word_sp_last
                  (fun a s Ha Hs => word_sp_more a s Ha Hs) eq_refl ws
                  (S (String.length (String.concat " " ws))) Hws) as H.
    rewrite map_id in H. apply H. lia.
  - unfold multi_word, repeat0. apply multi_word_colon_fuel; (assumption || lia).
Qed.

Lemma multi_word_words_witness :
  forallb is_word ["this"; "is"; "a"] = true /\ is_word "lot" = true /\
  multi_word (String.concat " " ["this"; "is"; "a"]) = Some (["this"; "is"; "a"], "") /\
  multi_word (fold_right (fun x acc => x ++ " " ++ acc) ("lot" ++ ":" ++ " of words")
                (["this"; "is"; "a"]))
  = Some (["this"; "is"; "a"], "lot" ++ ":" ++ " of words").
Proof.
  split; [reflexivity|]. split; [reflexivity|].
  apply multi_word_words; reflexivity.
Defined.

(** On a leading run of word characters [n] followed by text [t] that
    does not continue it, [project] fails unless [n] is [project] or
    [proj] and [t] starts with a colon; it then runs [word] on the rest,
    and fails if no word character follows the colon. *)
Theorem project_prefixes (n t : string) :
  str_forall is_word_char n = true -> starts_with is_word_char t = false ->
  project (n ++ t) =
  if not_project_kw n then None else
  match t with
  | String c u => if Ascii.eqb c ":" then pmap (fun v => {| name := v |}) word u else None
  | EmptyString => None
  end.
Proof.
  intros Hn Ht. destruct (not_project_kw n) eqn:Hk.
  - apply project_none; [exact Hn | exact Ht | left; exact Hk].
  - assert (Hkw : n = "project" \/ n = "proj").
    { unfold not_project_kw in Hk.
      destruct (String.eqb n "project") eqn:E1; [left; apply String.eqb_eq; exact E1|].
      destruct (String.eqb n "proj") eqn:E2; [right; apply String.eqb_eq; exact E2|].
      discriminate. }
    destruct t as [|c u].
    + apply project_none; [exact Hn | exact Ht | right; reflexivity].
    + destruct (Ascii.eqb c ":") eqn:Ec.
      * apply Ascii.eqb_eq in Ec; subst c.
        destruct Hkw as [-> | ->]; unfold project, alt; cbn -[word]; reflexivity.
      * apply project_none; [exact Hn | exact Ht | right].
        change (Ascii.eqb ":" c = false). destruct (Ascii.eqb ":" c) eqn:Ec2; [|reflexivity]. apply Ascii.eqb_eq in Ec2; subst c. discriminate.
Qed.

Lemma project_prefixes_witness :
  (str_forall is_word_char "proj" = true /\
   starts_with is_word_char ":home due:today" = false /\
   project ("proj" ++ ":home due:today") = Some ({| name := "home" |}, " due:today")) /\
  (str_forall is_word_char "project" = true /\
   starts_with is_word_char ": x" = false /\
   project ("project" ++ ": x") = None) /\
  (str_forall is_word_char "prj" = true /\
   starts_with is_word_char ":home" = false /\
   project ("prj" ++ ":home") = None).
Proof.
  split; [|split]; (split; [reflexivity|]; split; [reflexivity|]).
  - exact (project_prefixes "proj" ":home due:today" eq_refl eq_refl).
  - exact (project_prefixes "project" ": x" eq_refl eq_refl).
  - exact (project_prefixes "prj" ":home" eq_refl eq_refl).
Defined.

(** [Filters::from_str] reads back the space-joined [Display] forms of
    filters whose parts are words (an [Other] filter not named [project]
    or [proj]). *)
Theorem filters_roundtrip (fs : list Filter) :
  forallb valid_filter fs = true ->
  filters_from_str (String.concat " " (map filter_display fs)) = Ok fs.
Proof.
  intros Hfs. unfold filters_from_str, parse_all, filters, repeat0.
  rewrite (repeat0_join filter_space_or_end filter_display valid_filter);
    [reflexivity | exact valid_filter_start | exact filter_sp_last
    | intros; apply filter_sp_more; assumption | reflexivity | exact Hfs | lia].
Qed.

Lemma filters_roundtrip_witness :
  forallb valid_filter [FProject {| name := "home" |}; FOther "due" "today"] = true /\
  filters_from_str "project:home due:today"
  = Ok [FProject {| name := "home" |}; FOther "due" "today"].
Proof.
  split; [reflexivity|].
  exact (filters_roundtrip [FProject {| name := "home" |}; FOther "due" "today"] eq_refl).
Defined.

(** A filter written [project:v] or [proj:v] always parses as a project
    filter: an [Other] filter named [project] or [proj] does not survive a
    display and re-parse, and [proj:v] is read as [project:v]. *)
Theorem filters_project_alias (n v : string) :
  (n = "project" \/ n = "proj") -> is_word v = true ->
  filters_from_str (filter_display (FOther n v)) = Ok [FProject {| name := v |}].
Proof.
  intros Hn Hv.
  assert (Hp : filter (n ++ ":" ++ v) = Some (FProject {| name := v |}, "")).
  { unfold filter, alt, pmap.
    pose proof (project_kw n v "" Hn Hv eq_refl) as H. rewrite string_app_nil_r in H.
    rewrite H. reflexivity. }
  assert (Hsp : filter_space_or_end (n ++ ":" ++ v) = Some (FProject {| name := v |}, "")).
  { unfold filter_space_or_end. rewrite Hp. reflexivity. }
  unfold filters_from_str, parse_all, filters, repeat0, filter_display.
  rewrite string_length_app. cbn [repeat0_fuel]. rewrite Hsp.
  destruct Hn as [-> | ->]; reflexivity.
Qed.

Lemma filters_project_alias_witness :
  ("proj" = "project" \/ "proj" = "proj") /\ is_word "home" = true /\
  filters_from_str (filter_display (FOther "proj" "home")) = Ok [FProject {| name := "home" |}].
Proof.
  split; [right; reflexivity|]. split; [reflexivity|].
  apply filters_project_alias; [right|]; reflexivity.
Defined.

(** A word that is not followed by a colon is not a filter:
    [Filters::from_str] rejects it. *)
Theorem filters_reject_bare_word (w t : string) :
  is_word w = true -> starts_with is_word_char t = false ->
  starts_with (Ascii.eqb ":") t = false ->
  filters_from_str (w ++ t) = Err PEFilter.
Proof.
  intros Hw Ht Hc.
  assert (Hf : filter_space_or_end (w ++ t) = None).
  { unfold filter_space_or_end, filter, alt, pmap.
    rewrite project_none; [| apply is_word_forall; exact Hw | exact Ht | right; exact Hc].
    unfold filter_other. rewrite word_app by assumption. cbn [pbind].
    rewrite tag_colon_none by assumption. reflexivity. }
  unfold filters_from_str, parse_all, filters, repeat0. cbn [repeat0_fuel].
  rewrite Hf. destruct w; [discriminate | reflexivity].
Qed.

Lemma filters_reject_bare_word_witness :
  is_word "urgent" = true /\ starts_with is_word_char "" = false /\
  starts_with (Ascii.eqb ":") "" = false /\ filters_from_str ("urgent" ++ "") = Err PEFilter.
Proof.
  split; [reflexivity|]. split; [reflexivity|]. split; [reflexivity|].
  apply filters_reject_bare_word; reflexivity.
Defined.

(** [Modifier::from_str] (how each modifier argument is parsed) reads
    back the [Display] form of a modifier made of words whose [Other]
    name is neither [project] nor [proj]; a single word is a
    [Description]. *)
Theorem modifier_roundtrip (m : Modifier) :
  valid_modifier m = true -> modifier_from_str (modifier_display m) = Ok m.
Proof.
  intros Hv. unfold modifier_from_str, parse_all.
  pose proof (modifier_display_app m "" Hv eq_refl eq_refl) as H.
  rewrite string_app_nil_r in H. rewrite H. reflexivity.
Qed.

Lemma modifier_roundtrip_witness :
  valid_modifier (Description "project") = true /\
  modifier_from_str (modifier_display (Description "project")) = Ok (Description "project").
Proof. split; [reflexivity|]. apply modifier_roundtrip; reflexivity. Defined.

(** [Modifiers::from_str] reads back the space-joined [Display] forms of
    modifiers made of words, none of them an [Other] named [project] or
    [proj]. *)
Theorem modifiers_roundtrip (ms : list Modifier) :
  forallb valid_modifier ms = true ->
  modifiers_from_str (String.concat " " (map modifier_display ms)) = Ok ms.
Proof.
  intros Hms. unfold modifiers_from_str, parse_all, modifiers, repeat0.
  rewrite (repeat0_join modifier_space_or_end modifier_display valid_modifier);
    [reflexivity | exact valid_modifier_start | exact modifier_sp_last
    | intros; apply modifier_sp_more; assumption | reflexivity | exact Hms | lia].
Qed.

Lemma modifiers_roundtrip_witness :
  forallb valid_modifier [Description "fix"; MProject {| name := "home" |}; MOther "due" "today"]
  = true /\
  modifiers_from_str "fix project:home due:today"
  = Ok [Description "fix"; MProject {| name := "home" |}; MOther "due" "today"].
Proof.
  split; [reflexivity|].
  exact (modifiers_roundtrip [Description "fix"; MProject {| name := "home" |}; MOther "due" "today"]
           eq_refl).
Defined.

End TaskArgsFacts.

(* ------------------------------------------------------------------ *)
(** ** Properties of main.rs's argument handling *)

Module MainFacts.
Local Open Scope string_scope.

Lemma find_project_from_nearest (g : Path -> bool) (cwd : Path) (k : nat) :
  (forall j, (j < k)%nat -> g (skipn j cwd) = false) ->
  g (skipn k cwd) = true ->
  find_project_from g cwd =
  match nth_error cwd k with
  | Some n => Done (Some {| TaskArgs.name := n |})
  | None => Panicked
  end.
Proof.
  revert k; induction cwd as [|x cwd IH]; intros k Hbelow Hk.
  - destruct k as [|k].
    + simpl in *. rewrite Hk. reflexivity.
    + specialize (Hbelow 0%nat ltac:(lia)). rewrite skipn_nil in Hk. simpl in Hbelow. congruence.
  - destruct k as [|k].
    + simpl in *. rewrite Hk. reflexivity.
    + pose proof (Hbelow 0%nat ltac:(lia)) as H0. simpl in H0 |- *. rewrite H0.
      apply IH; [| exact Hk].
      intros j Hj. exact (Hbelow (S j) ltac:(lia)).
Qed.

Lemma find_project_from_none (g : Path -> bool) (cwd : Path) :
  (forall j, (j <= List.length cwd)%nat -> g (skipn j cwd) = false) ->
  find_project_from g cwd = Done None.
Proof.
  induction cwd as [|x cwd IH]; intros H; simpl.
  - pose proof (H 0%nat ltac:(simpl; lia)) as H0. simpl in H0. rewrite H0. reflexivity.
  - pose proof (H 0%nat ltac:(lia)) as H0. simpl in H0. rewrite H0. apply IH.
    intros j Hj. exact (H (S j) ltac:(simpl; lia)).
Qed.

(** [find_project] names the project after the nearest directory, from
    the current one up, that holds a [.git] directory; if that directory
    is the root [/] (no file name), it panics. *)
Theorem find_project_nearest (e : ProjEnv) (cwd : Path) (k : nat) :
  current_dir e = Some cwd ->
  (forall j, (j < k)%nat -> has_git_dir e (skipn j cwd) = false) ->
  has_git_dir e (skipn k cwd) = true ->
  find_project e =
  match nth_error cwd k with
  | Some n => Done (Some {| TaskArgs.name := n |})
  | None => Panicked
  end.
Proof.
  intros Hc Hb Hk. unfold find_project. rewrite Hc. cbn [try_sys obind].
  apply find_project_from_nearest; assumption.
Qed.

Lemma find_project_nearest_witness :
  let e := {| current_dir := Some ["src"; "repo"; "home"];
              has_git_dir := fun p => path_eqb p ["repo"; "home"] |} in
  (current_dir e = Some ["src"; "repo"; "home"] /\
   (forall j, (j < 1)%nat -> has_git_dir e (skipn j ["src"; "repo"; "home"]) = false) /\
   has_git_dir e (skipn 1 ["src"; "repo"; "home"]) = true /\
   find_project e = Done (Some {| TaskArgs.name := "repo" |})).
Proof.
  intros e. split; [reflexivity|].
  assert (Hb : forall j, (j < 1)%nat -> has_git_dir e (skipn j ["src"; "repo"; "home"]) = false).
  { intros j Hj. destruct j; [reflexivity | lia]. }
  split; [exact Hb|]. split; [reflexivity|].
  exact (find_project_nearest e ["src"; "repo"; "home"] 1 eq_refl Hb eq_refl).
Defined.

(** Without any [.git] directory on the way up to the root,
    [find_project] finds no project. *)
Theorem find_project_none (e : ProjEnv) (cwd : Path) :
  current_dir e = Some cwd ->
  (forall j, (j <= List.length cwd)%nat -> has_git_dir e (skipn j cwd) = false) ->
  find_project e = Done None.
Proof.
  intros Hc H. unfold find_project. rewrite Hc. cbn [try_sys obind].
  apply find_project_from_none; assumption.
Qed.

Lemma find_project_none_witness :
  let e := {| current_dir := Some ["tmp"]; has_git_dir := fun _ => false |} in
  current_dir e = Some ["tmp"] /\
  (forall j, (j <= List.length ["tmp"])%nat -> has_git_dir e (skipn j ["tmp"]) = false) /\
  find_project e = Done None.
Proof.
  intros e. split; [reflexivity|].
  assert (H : forall j, (j <= List.length ["tmp"])%nat -> has_git_dir e (skipn j ["tmp"]) = false)
    by (intros; reflexivity).
  split; [exact H|].
  exact (find_project_none e ["tmp"] eq_refl H).
Defined.

Lemma set_project_ok (e : ProjEnv) (b : bool) (args : list string) (idx : Index) :
  find_project e <> Panicked ->
  match idx with At i => (i <= List.length args)%nat | AtEnd => True end ->
  set_project e b args idx <> Panicked.
Proof.
  intros Hf Hi. unfold set_project. destruct b; [discriminate|].
  destruct (find_project e) as [[p|]| |]; cbn [obind]; try discriminate; [|congruence].
  destruct idx as [i|]; [|discriminate].
  unfold vec_insert. rewrite (proj2 (Nat.leb_le _ _) Hi). discriminate.
Qed.

(** The report commands (the read-only listings, [burndown], [history],
    [ghistory] and the like) get the project of the current directory as
    their first argument, ahead of any filters, unless a project filter
    was given. *)
Theorem report_commands_project_first (e : ProjEnv) (filters : option (list TaskArgs.Filter))
    (c : Args.Commands) :
  report_command c = true ->
  build_task_args e filters (Some c) =
  let fs := filters_list filters in
  let args1 := (map TaskArgs.filter_display fs ++ [Args.commands_display c])%list in
  if existsb is_filter_project fs then Done args1
  else (found <- find_project e ;;
        Done (match found with
              | None => args1
              | Some p => TaskArgs.project_display p :: args1
              end)).
Proof.
  intros H.
  destruct c; try discriminate H;
    unfold build_task_args, set_project; cbv zeta;
    (destruct (existsb is_filter_project (filters_list filters)); [reflexivity|]);
    (destruct (find_project e) as [[p|]| |]; reflexivity).
Qed.

Lemma report_commands_project_first_witness :
  let e := {| current_dir := Some ["repo"]; has_git_dir := fun p => path_eqb p ["repo"] |} in
  report_command Args.Next = true /\
  build_task_args e (Some [TaskArgs.FOther "due" "today"]) (Some Args.Next)
  = Done ["project:repo"; "due:today"; "next"].
Proof.
  intros e. split; [reflexivity|].
  rewrite (report_commands_project_first e (Some [TaskArgs.FOther "due" "today"]) Args.Next eq_refl).
  reflexivity.
Defined.

(** [add] and the other commands that take modifiers ([start], [stop],
    [modify], [done], [delete], ...) get the project of the current
    directory as their last argument, after the modifiers, unless one of
    the modifiers is a project. A project filter does not prevent it. *)
Theorem modifying_commands_project_last (e : ProjEnv) (filters : option (list TaskArgs.Filter))
    (c : Args.Commands) (mods : list TaskArgs.Modifier) :
  modifying_command c = Some mods \/ (c = Args.Add mods /\ filters = None) ->
  build_task_args e filters (Some c) =
  let args2 := ((map TaskArgs.filter_display (filters_list filters) ++ [Args.commands_display c])
               ++ map TaskArgs.modifier_display mods)%list in
  if existsb is_modifier_project mods then Done args2
  else (found <- find_project e ;;
        Done (match found with
              | None => args2
              | Some p => (args2 ++ [TaskArgs.project_display p])%list
              end)).
Proof.
  intros [H | [-> ->]].
  - destruct c; try discriminate H; injection H as <-;
      unfold build_task_args, set_project; cbv zeta;
      (destruct (existsb is_modifier_project mods0); [reflexivity|]);
      (destruct (find_project e) as [[p|]| |]; reflexivity).
  - unfold build_task_args, set_project, no_filter; cbv zeta; cbn [obind].
    destruct (existsb is_modifier_project mods); [reflexivity|].
    destruct (find_project e) as [[p|]| |]; reflexivity.
Qed.

Lemma modifying_commands_project_last_witness :
  let e := {| current_dir := Some ["repo"]; has_git_dir := fun p => path_eqb p ["repo"] |} in
  (modifying_command (Args.Modify [TaskArgs.MOther "due" "today"])
   = Some [TaskArgs.MOther "due" "today"] \/
   (Args.Modify [TaskArgs.MOther "due" "today"] = Args.Add [TaskArgs.MOther "due" "today"] /\
    Some [TaskArgs.FProject {| TaskArgs.name := "other" |}] = None)) /\
  build_task_args e (Some [TaskArgs.FProject {| TaskArgs.name := "other" |}])
    (Some (Args.Modify [TaskArgs.MOther "due" "today"]))
  = Done ["project:other"; "modify"; "due:today"; "project:repo"].
Proof.
  intros e. split; [left; reflexivity|].
  rewrite (modifying_commands_project_last e (Some [TaskArgs.FProject {| TaskArgs.name := "other" |}])
             (Args.Modify [TaskArgs.MOther "due" "today"]) [TaskArgs.MOther "due" "today"]
             (or_introl eq_refl)).
  reflexivity.
Defined.

(** The commands that call [no_filter] fail with
    "Subcommand '<name>' does not allow preceding filters" whenever a
    filter argument was given, even an empty one, without looking for a
    project. *)
Theorem no_filter_commands_reject_filters (e : ProjEnv) (fs : list TaskArgs.Filter)
    (c : Args.Commands) :
  no_filter_command c = true ->
  build_task_args e (Some fs) (Some c) = Fail (NoFilterAllowed (Args.commands_display c)).
Proof. intros H. destruct c; try discriminate H; reflexivity. Qed.

Lemma no_filter_commands_reject_filters_witness :
  let e := {| current_dir := None; has_git_dir := fun _ => false |} in
  no_filter_command (Args.Add [TaskArgs.Description "x"]) = true /\
  build_task_args e (Some []) (Some (Args.Add [TaskArgs.Description "x"]))
  = Fail (NoFilterAllowed "add").
Proof.
  intros e. split; [reflexivity|].
  exact (no_filter_commands_reject_filters e [] (Args.Add [TaskArgs.Description "x"]) eq_refl).
Defined.

(** The [project] subcommand refuses a project filter; otherwise the
    project of the current directory goes in at index 1: right after
    "project" when there are no filters, else right after the first
    filter. *)
Theorem project_command_args (e : ProjEnv) (filters : option (list TaskArgs.Filter)) :
  build_task_args e filters (Some Args.Project) =
  let fs := filters_list filters in
  if existsb is_filter_project fs then Fail ProjectFilterWithProject
  else (found <- find_project e ;;
        Done (match found, fs with
              | None, _ => (map TaskArgs.filter_display fs ++ ["project"])%list
              | Some p, [] => ["project"; TaskArgs.project_display p]
              | Some p, f :: fs' =>
                  TaskArgs.filter_display f :: TaskArgs.project_display p
                  :: (map TaskArgs.filter_display fs' ++ ["project"])%list
              end)).
Proof.
  unfold build_task_args, set_project; cbv zeta.
  destruct (existsb is_filter_project (filters_list filters)); [reflexivity|].
  destruct (find_project e) as [[p|]| |]; cbn [obind]; try reflexivity.
  destruct (filters_list filters) as [|f fs']; reflexivity.
Qed.

(** Building the arguments never panics, unless [find_project] does: the
    indices given to [Vec::insert] are always in bounds. *)
Theorem build_task_args_no_panic (e : ProjEnv) (filters : option (list TaskArgs.Filter))
    (c : option Args.Commands) :
  find_project e <> Panicked -> build_task_args e filters c <> Panicked.
Proof.
  intros Hf. destruct c as [c|]; [|discriminate].
  destruct c; unfold build_task_args; cbv zeta;
    try (apply set_project_ok; [exact Hf | cbn; lia]);
    try (unfold no_filter; destruct filters; cbn [obind]; discriminate);
    try discriminate.
  - unfold no_filter; destruct filters; cbn [obind]; [discriminate|].
    apply set_project_ok; [exact Hf | exact I].
  - destruct (existsb is_filter_project (filters_list filters)); [discriminate|].
    apply set_project_ok; [exact Hf|]. rewrite length_app; cbn; lia.
Qed.

Lemma build_task_args_no_panic_witness :
  let e := {| current_dir := Some ["repo"]; has_git_dir := fun p => path_eqb p ["repo"] |} in
  find_project e <> Panicked /\ build_task_args e None (Some Args.Project) <> Panicked.
Proof.
  intros e. assert (H : find_project e <> Panicked) by discriminate.
  split; [exact H|]. exact (build_task_args_no_panic e None (Some Args.Project) H).
Defined.

Lemma path_eqb_true (a b : Path) : path_eqb a b = true -> a = b.
Proof.
  revert b; induction a as [|x a IH]; intros [|y b] H; simpl in H; try discriminate; [reflexivity|].
  apply andb_prop in H as [Hxy H]. apply String.eqb_eq in Hxy. subst y. f_equal. apply IH, H.
Qed.

Lemma path_eqb_refl (a : Path) : path_eqb a a = true.
Proof. induction a as [|x a IH]; simpl; [reflexivity|]. rewrite String.eqb_refl. exact IH. Qed.

Lemma first_other_spec (canon : string -> option Path) (this c : Path) (ms : list string) :
  first_other canon this ms = Done c ->
  c <> this /\
  exists pre m post, ms = (pre ++ m :: post)%list /\ canon m = Some c /\
                     Forall (fun x => canon x = Some this) pre.
Proof.
  induction ms as [|m ms IH]; simpl; [discriminate|].
  destruct (canon m) as [c'|] eqn:Ec; cbn [try_sys obind]; [|discriminate].
  destruct (path_eqb c' this) eqn:Eq.
  - intros H. apply path_eqb_true in Eq; subst c'.
    destruct (IH H) as [Hne [pre [m' [post [-> [Hm Hpre]]]]]].
    split; [exact Hne|]. exists (m :: pre), m', post. split; [reflexivity|].
    split; [exact Hm|]. constructor; assumption.
  - intros H; injection H as <-. split.
    + intros ->. rewrite path_eqb_refl in Eq. discriminate.
    + exists [], m, ms. split; [reflexivity|]. split; [exact Ec | constructor].
Qed.

(** [find_taskwarrior] never returns the running program itself: it
    returns the canonical path of the first match of [which_all("task")]
    that differs from it, all earlier matches being the program itself. *)
Theorem find_taskwarrior_skips_self (canon : string -> option Path)
    (which : option (list string)) (this c : Path) :
  find_taskwarrior canon which this = Done c ->
  c <> this /\
  exists ms pre m post, which = Some ms /\ ms = (pre ++ m :: post)%list /\
                        canon m = Some c /\ Forall (fun x => canon x = Some this) pre.
Proof.
  unfold find_taskwarrior. destruct which as [ms|]; [|discriminate].
  intros H. destruct (first_other_spec canon this c ms H) as [Hne [pre [m [post Hs]]]].
  split; [exact Hne|]. exists ms, pre, m, post. split; [reflexivity | exact Hs].
Qed.

Lemma find_taskwarrior_skips_self_witness :
  find_taskwarrior demo_canon (Some ["/home/u/bin/task"; "/usr/bin/task"]) ["taskhelper"; "bin"; "home"]
  = Done ["task"; "bin"; "usr"] /\
  (["task"; "bin"; "usr"] <> ["taskhelper"; "bin"; "home"] /\
   exists ms pre m post, Some ["/home/u/bin/task"; "/usr/bin/task"] = Some ms /\
     ms = (pre ++ m :: post)%list /\ demo_canon m = Some ["task"; "bin"; "usr"] /\
     Forall (fun x => demo_canon x = Some ["taskhelper"; "bin"; "home"]) pre).
Proof.
  assert (H : find_taskwarrior demo_canon (Some ["/home/u/bin/task"; "/usr/bin/task"])
                ["taskhelper"; "bin"; "home"] = Done ["task"; "bin"; "usr"]) by reflexivity.
  split; [exact H|]. exact (find_taskwarrior_skips_self _ _ _ _ H).
Defined.

(** Invoked as [task], [main] hands all its arguments, unchanged, to the
    real taskwarrior, before it looks at [args[1]] (so neither
    ["--version"] nor a missing argument is special). *)
Theorem main_start_as_task (e : MainEnv) (a0 : string) (rest : list string) (this bin : Path)
    (out : string) :
  argv e = a0 :: rest -> canonicalize e a0 = Some this -> file_name this = Some "task" ->
  find_taskwarrior (canonicalize e) (which_all_task e) this = Done bin ->
  version_stdout e bin = Some out ->
  main_start e = Done (Mimic bin rest).
Proof.
  intros Ha Hc Hn Hf Hv. unfold main_start, index_or_panic, task_version.
  rewrite Ha. cbn [nth_error unwrap obind]. rewrite Hc. cbn [try_sys obind].
  rewrite Hf. cbn [obind]. rewrite Hv. cbn [try_sys obind]. rewrite Hn. cbn [unwrap obind].
  reflexivity.
Qed.

Lemma main_start_as_task_witness :
  let e := {| argv := ["task"; "--version"];
              canonicalize := fun s => if String.eqb s "task" then Some ["task"; "bin"; "home"]
                                       else demo_canon s;
              which_all_task := Some ["/usr/bin/task"];
              version_stdout := fun _ => Some "3.1.0" |} in
  main_start e = Done (Mimic ["task"; "bin"; "usr"] ["--version"]).
Proof.
  intros e. exact (main_start_as_task e "task" ["--version"] ["task"; "bin"; "home"]
                     ["task"; "bin"; "usr"] "3.1.0" eq_refl eq_refl eq_refl eq_refl eq_refl).
Defined.

(** Under any other name, [main] panics when it is given no argument
    ([args[1]] is out of bounds). *)
Theorem main_start_no_argument_panics (e : MainEnv) (a0 : string) (this bin : Path)
    (n out : string) :
  argv e = [a0] -> canonicalize e a0 = Some this -> file_name this = Some n -> n <> "task" ->
  find_taskwarrior (canonicalize e) (which_all_task e) this = Done bin ->
  version_stdout e bin = Some out ->
  main_start e = Panicked.
Proof.
  intros Ha Hc Hn Hne Hf Hv. unfold main_start, index_or_panic, task_version.
  rewrite Ha. cbn [nth_error unwrap obind]. rewrite Hc. cbn [try_sys obind].
  rewrite Hf. cbn [obind]. rewrite Hv. cbn [try_sys obind]. rewrite Hn. cbn [unwrap obind].
  apply String.eqb_neq in Hne. rewrite Hne. reflexivity.
Qed.

Lemma main_start_no_argument_panics_witness :
  let e := {| argv := ["/home/u/bin/task"]; canonicalize := demo_canon;
              which_all_task := Some ["/home/u/bin/task"; "/usr/bin/task"];
              version_stdout := fun _ => Some "3.1.0" |} in
  main_start e = Panicked.
Proof.
  intros e. apply (main_start_no_argument_panics e "/home/u/bin/task" ["taskhelper"; "bin"; "home"]
                     ["task"; "bin"; "usr"] "taskhelper" "3.1.0"); try reflexivity.
  discriminate.
Defined.

Lemma trim_end_white (w : string) : TaskArgs.str_forall is_whitespace w = true -> trim_end w = "".
Proof.
  induction w as [|c w IH]; simpl; [reflexivity|].
  intros H. apply andb_prop in H as [Hc Hw]. rewrite IH by exact Hw. rewrite Hc. reflexivity.
Qed.

Lemma trim_end_app_white (x w : string) :
  TaskArgs.str_forall is_whitespace w = true -> trim_end (x ++ w) = trim_end x.
Proof.
  intros Hw. induction x as [|c x IH]; simpl; [apply trim_end_white, Hw|].
  rewrite IH. reflexivity.
Qed.

Lemma trim_start_app_white (w y : string) :
  TaskArgs.str_forall is_whitespace w = true -> trim_start (w ++ y) = trim_start y.
Proof.
  induction w as [|c w IH]; simpl; [reflexivity|].
  intros H. apply andb_prop in H as [Hc Hw]. rewrite Hc. apply IH, Hw.
Qed.

(** [--version] reports the installed taskwarrior as compatible when
    [task --version] prints 3.1.0 with any whitespace around it (such as
    the trailing newline). *)
Theorem main_version_compatible (e : MainEnv) (a0 : string) (rest : list string) (this bin : Path)
    (n w1 w2 : string) :
  argv e = a0 :: "--version" :: rest -> canonicalize e a0 = Some this ->
  file_name this = Some n -> n <> "task" ->
  find_taskwarrior (canonicalize e) (which_all_task e) this = Done bin ->
  version_stdout e bin = Some (w1 ++ "3.1.0" ++ w2) ->
  TaskArgs.str_forall is_whitespace w1 = true -> TaskArgs.str_forall is_whitespace w2 = true ->
  main_start e = Done (PrintVersion "3.1.0" true).
Proof.
  intros Ha Hc Hn Hne Hf Hv H1 H2. unfold main_start, index_or_panic, task_version.
  rewrite Ha. cbn [nth_error unwrap obind]. rewrite Hc. cbn [try_sys obind].
  rewrite Hf. cbn [obind]. rewrite Hv. cbn [try_sys obind]. rewrite Hn. cbn [unwrap obind].
  apply String.eqb_neq in Hne. rewrite Hne.
  assert (Ht : trim (w1 ++ "3.1.0" ++ w2) = "3.1.0").
  { unfold trim. rewrite trim_start_app_white by exact H1.
    change (trim_start ("3.1.0" ++ w2)) with ("3.1.0" ++ w2).
    rewrite trim_end_app_white by exact H2. reflexivity. }
  rewrite Ht. reflexivity.
Qed.

Lemma main_version_compatible_witness :
  let e := {| argv := ["/home/u/bin/task"; "--version"]; canonicalize := demo_canon;
              which_all_task := Some ["/home/u/bin/task"; "/usr/bin/task"];
              version_stdout := fun _ => Some ("" ++ "3.1.0" ++ String (ascii_of_nat 10) "") |} in
  main_start e = Done (PrintVersion "3.1.0" true).
Proof.
  intros e. apply (main_version_compatible e "/home/u/bin/task" [] ["taskhelper"; "bin"; "home"]
                     ["task"; "bin"; "usr"] "taskhelper" "" (String (ascii_of_nat 10) ""));
    try reflexivity.
  discriminate.
Defined.

(** The [burndown] argument [Burndown::from_str] accepts is exactly the
    suffix of the command word [Commands]'s [Display] gives it:
    [burndown.<s>]. *)
Theorem burndown_arg_display (s : string) (b : TaskArgs.Burndown) :
  TaskArgs.burndown_from_str s = TaskArgs.Ok b <->
  Args.commands_display (Args.Burndown b) = "burndown." ++ s.
Proof.
  split.
  - unfold TaskArgs.burndown_from_str, TaskArgs.parse_all, TaskArgs.burndown, TaskArgs.alt,
      TaskArgs.pmap, TaskArgs.tag.
    destruct (TaskArgs.strip_prefix "daily" s) as [r|] eqn:E1;
      [| destruct (TaskArgs.strip_prefix "monthly" s) as [r|] eqn:E2;
         [| destruct (TaskArgs.strip_prefix "weekly" s) as [r|] eqn:E3; [|discriminate]]];
      match goal with H : TaskArgs.strip_prefix _ s = Some _ |- _ =>
        apply TaskArgsFacts.strip_prefix_spec in H end; subst s;
      (destruct r; [|discriminate]); intros H; injection H as <-; reflexivity.
  - destruct b; cbn [Args.commands_display]; intros H;
      [ change "burndown.daily" with ("burndown." ++ "daily") in H
      | change "burndown.monthly" with ("burndown." ++ "monthly") in H
      | change "burndown.weekly" with ("burndown." ++ "weekly") in H ];
      apply TaskArgsFacts.string_app_cancel_l in H; subst s; reflexivity.
Qed.

(** Likewise for [History::from_str] and the [history.<s>] and
    [ghistory.<s>] command words. *)
Theorem history_arg_display (s : string) (h : TaskArgs.History) :
  TaskArgs.history_from_str s = TaskArgs.Ok h <->
  Args.commands_display (Args.History h) = "history." ++ s /\
  Args.commands_display (Args.Ghistory h) = "ghistory." ++ s.
Proof.
  split.
  - unfold TaskArgs.history_from_str, TaskArgs.parse_all, TaskArgs.history, TaskArgs.alt,
      TaskArgs.pmap, TaskArgs.tag.
    destruct (TaskArgs.strip_prefix "daily" s) as [r|] eqn:E1;
      [| destruct (TaskArgs.strip_prefix "monthly" s) as [r|] eqn:E2;
         [| destruct (TaskArgs.strip_prefix "weekly" s) as [r|] eqn:E3;
            [| destruct (TaskArgs.strip_prefix "annual" s) as [r|] eqn:E4; [|discriminate]]]];
      match goal with H : TaskArgs.strip_prefix _ s = Some _ |- _ =>
        apply TaskArgsFacts.strip_prefix_spec in H end; subst s;
      (destruct r; [|discriminate]); intros H; injection H as <-; split; reflexivity.
  - destruct h; cbn [Args.commands_display]; intros [H _];
      [ change "history.annual" with ("history." ++ "annual") in H
      | change "history.daily" with ("history." ++ "daily") in H
      | change "history.monthly" with ("history." ++ "monthly") in H
      | change "history.weekly" with ("history." ++ "weekly") in H ];
      apply TaskArgsFacts.string_app_cancel_l in H; subst s; reflexivity.
Qed.

End MainFacts.

(* ------------------------------------------------------------------ *)
(** ** More properties of [XCommand::spawn] *)

Module SpawnFacts.

Local Open Scope string_scope.

(** Decide the descriptor comparisons [lia] can settle. *)
Ltac zsimpl :=
  repeat match goal with
  | |- context [Z.eqb ?a ?b] =>
      first [ rewrite (proj2 (Z.eqb_eq a b)) by lia
            | rewrite (proj2 (Z.eqb_neq a b)) by lia ]
  end.

Lemma fd_lookup_remove_same (t : FdTable) (y : Z) : fd_lookup (fd_remove t y) y = None.
Proof.
  induction t as [|[fd o] t IH]; simpl; [reflexivity|].
  destruct (Z.eqb y fd) eqn:E; [exact IH|]. simpl. rewrite E. exact IH.
Qed.

Lemma spawn_command_two_ptys (s : Sys) (p : string) (l : list string) :
  (2 <= sys_ptys_left s)%nat -> sys_fork_ok s = true -> 3 <= sys_next_fd s ->
  has_nul p = false -> existsb has_nul l = false -> In p (sys_exes s) ->
  exists s',
  spawn_command s p l =
  (Done {| pid := sys_next_pid s; stdout := sys_next_fd s; stderr := sys_next_fd s + 2 |},
   s',
   Some (sys_next_pid s,
         ChildImage p (p :: l) []
           ((2, PtySlave (S (sys_next_pty s))) ::
            fd_remove ((1, PtySlave (sys_next_pty s)) ::
              fd_remove (fd_remove (fd_remove
                ((sys_next_fd s + 2 + 1, PtySlave (S (sys_next_pty s))) ::
                 (sys_next_fd s + 2, PtyMaster (S (sys_next_pty s))) ::
                 (sys_next_fd s + 1, PtySlave (sys_next_pty s)) ::
                 (sys_next_fd s, PtyMaster (sys_next_pty s)) :: sys_fds s)
                (sys_next_fd s)) (sys_next_fd s + 2)) 1) 2))) /\
  sys_fds s' =
    fd_remove (fd_remove
      ((sys_next_fd s + 2 + 1, PtySlave (S (sys_next_pty s))) ::
       (sys_next_fd s + 2, PtyMaster (S (sys_next_pty s))) ::
       (sys_next_fd s + 1, PtySlave (sys_next_pty s)) ::
       (sys_next_fd s, PtyMaster (sys_next_pty s)) :: sys_fds s)
      (sys_next_fd s + 1)) (sys_next_fd s + 2 + 1).
Proof.
  intros Hl Hf HN Hp Hnul Hin.
  unfold spawn_command, builder_new, path_to_cstring, cstring_new. rewrite Hp. cbn [obind].
  unfold builder_args. rewrite cstr_args_ok by exact Hnul. cbn [obind build command args env b_command b_args b_env].
  unfold spawn, openpty.
  destruct (sys_ptys_left s) as [|[|avail]]; [lia | lia |].
  cbn -[fd_remove]. rewrite Hf. cbn -[fd_remove].
  unfold fd_close. cbn [fd_lookup]. zsimpl. cbn [unwrap obind].
  rewrite fd_lookup_remove by lia. cbn [fd_lookup]. zsimpl. cbn [unwrap obind].
  unfold spawn_child, fd_close, fd_dup2. cbn [sys_fds sys_exes].
  repeat (first [rewrite fd_lookup_remove by lia | progress cbn [fd_lookup]
                | progress zsimpl | progress cbn [unwrap obind]]).
  unfold exec. cbn [command args env build b_command b_args b_env format_envs obind].
  replace (existsb (String.eqb p) (sys_exes s)) with true.
  2:{ symmetry. apply existsb_exists. exists p. split; [exact Hin | apply String.eqb_refl]. }
  eexists; split; reflexivity.
Qed.

Lemma fd_lookup_remove_some (t : FdTable) (x y : Z) (o : FileObj) :
  fd_lookup (fd_remove t y) x = Some o -> x <> y /\ fd_lookup t x = Some o.
Proof.
  intros H. destruct (Z.eq_dec x y) as [->|Hne].
  - rewrite fd_lookup_remove_same in H. discriminate.
  - rewrite fd_lookup_remove in H by exact Hne. split; assumption.
Qed.

(** Split a lookup in a table built by [openpty], [close] and [dup2]
    into the entries it can come from. *)
Ltac lookup_cases H :=
  repeat first
    [ apply fd_lookup_remove_some in H; destruct H as [? H]
    | progress cbn [fd_lookup] in H
    | match type of H with
      | context [Z.eqb ?x ?y] => destruct (Z.eqb_spec x y)
      end ].

(** [builder(p).args(l)?.build().spawn()] on a process that holds no pty:
    the handle's stdout and stderr are the masters of two fresh ptys, the
    child's descriptors 1 and 2 are their slaves, the parent keeps no slave
    and the child no master of them, the child runs [p] with argv [p :: l]
    and an empty environment, and the descriptors both held before stay
    as they were. *)
Theorem spawn_wires_ptys (s : Sys) (p : string) (l : list string) :
  (2 <= sys_ptys_left s)%nat -> sys_fork_ok s = true -> 3 <= sys_next_fd s ->
  inherited_only (sys_fds s) ->
  has_nul p = false -> existsb has_nul l = false -> In p (sys_exes s) ->
  exists h s' t,
    spawn_command s p l = (Done h, s', Some (pid h, ChildImage p (p :: l) [] t)) /\
    fd_lookup (sys_fds s') (stdout h) = Some (PtyMaster (sys_next_pty s)) /\
    fd_lookup (sys_fds s') (stderr h) = Some (PtyMaster (S (sys_next_pty s))) /\
    fd_lookup t 1 = Some (PtySlave (sys_next_pty s)) /\
    fd_lookup t 2 = Some (PtySlave (S (sys_next_pty s))) /\
    (forall fd o, fd_lookup (sys_fds s') fd = Some o ->
       o <> PtySlave (sys_next_pty s) /\ o <> PtySlave (S (sys_next_pty s))) /\
    (forall fd o, fd_lookup t fd = Some o ->
       o <> PtyMaster (sys_next_pty s) /\ o <> PtyMaster (S (sys_next_pty s))) /\
    (forall fd, fd < sys_next_fd s -> fd_lookup (sys_fds s') fd = fd_lookup (sys_fds s) fd) /\
    (forall fd, fd < sys_next_fd s -> fd <> 1 -> fd <> 2 ->
       fd_lookup t fd = fd_lookup (sys_fds s) fd).
Proof.
  intros Hl Hf HN Hinh Hp Hnul Hin.
  destruct (spawn_command_two_ptys s p l Hl Hf HN Hp Hnul Hin) as [s' [Hsp Hfd]].
  set (N := sys_next_fd s) in *. set (k := sys_next_pty s) in *.
  eexists _, s', _. split; [exact Hsp|]. cbn [pid stdout stderr].
  rewrite Hfd.
  split; [rewrite !fd_lookup_remove by lia; cbn [fd_lookup]; zsimpl; reflexivity|].
  split; [rewrite !fd_lookup_remove by lia; cbn [fd_lookup]; zsimpl; reflexivity|].
  split; [cbn [fd_lookup]; zsimpl; rewrite fd_lookup_remove by lia; cbn [fd_lookup]; zsimpl; reflexivity|].
  split; [cbn [fd_lookup]; zsimpl; reflexivity|].
  split; [|split; [|split]].
  - intros fd o H. lookup_cases H; try lia;
      try (injection H as <-; split; congruence).
    destruct (Hinh fd o H) as [x ->]. split; discriminate.
  - intros fd o H. lookup_cases H; try lia;
      try (injection H as <-; split; congruence).
    destruct (Hinh fd o H) as [x ->]. split; discriminate.
  - intros fd Hlt. rewrite !fd_lookup_remove by lia. cbn [fd_lookup]. zsimpl. reflexivity.
  - intros fd Hlt H1 H2. cbn [fd_lookup]. zsimpl.
    rewrite fd_lookup_remove by lia. cbn [fd_lookup]. zsimpl.
    rewrite !fd_lookup_remove by lia. cbn [fd_lookup]. zsimpl. reflexivity.
Qed.

Lemma spawn_wires_ptys_witness :
  ((2 <= sys_ptys_left demo_sys)%nat /\ sys_fork_ok demo_sys = true /\ 3 <= sys_next_fd demo_sys /\
   inherited_only (sys_fds demo_sys) /\ has_nul "/usr/bin/task" = false /\
   existsb has_nul ["list"] = false /\ In "/usr/bin/task" (sys_exes demo_sys)) /\
  exists h s' t,
    spawn_command demo_sys "/usr/bin/task" ["list"] =
      (Done h, s', Some (pid h, ChildImage "/usr/bin/task" ["/usr/bin/task"; "list"] [] t)) /\
    fd_lookup (sys_fds s') (stdout h) = Some (PtyMaster 0) /\
    fd_lookup (sys_fds s') (stderr h) = Some (PtyMaster 1) /\
    fd_lookup t 1 = Some (PtySlave 0) /\
    fd_lookup t 2 = Some (PtySlave 1) /\
    (forall fd o, fd_lookup (sys_fds s') fd = Some o -> o <> PtySlave 0 /\ o <> PtySlave 1) /\
    (forall fd o, fd_lookup t fd = Some o -> o <> PtyMaster 0 /\ o <> PtyMaster 1) /\
    (forall fd, fd < 3 -> fd_lookup (sys_fds s') fd = fd_lookup (sys_fds demo_sys) fd) /\
    (forall fd, fd < 3 -> fd <> 1 -> fd <> 2 -> fd_lookup t fd = fd_lookup (sys_fds demo_sys) fd).
Proof.
  assert (Hinh : inherited_only (sys_fds demo_sys)).
  { intros fd o H. cbn [sys_fds demo_sys fd_lookup] in H.
    destruct (Z.eqb fd 0); [injection H as <-; eexists; reflexivity|].
    destruct (Z.eqb fd 1); [injection H as <-; eexists; reflexivity|].
    destruct (Z.eqb fd 2); [injection H as <-; eexists; reflexivity|]. discriminate. }
  split; [repeat split; [cbn; lia | cbn; lia | exact Hinh | left; reflexivity]|].
  apply (spawn_wires_ptys demo_sys "/usr/bin/task" ["list"]);
    [cbn; lia | reflexivity | cbn; lia | exact Hinh | reflexivity | reflexivity | left; reflexivity].
Defined.

(** Error paths of [XCommand::spawn]: both ends of each opened pty are
    kept from being closed on drop ([mem::forget]), so when the second
    [openpty] fails the first pair stays open in the parent, and when
    [fork] fails both pairs do. *)
Theorem spawn_second_pty_failure_leaks (s : Sys) (p : string) (l : list string) :
  sys_ptys_left s = 1%nat -> has_nul p = false -> existsb has_nul l = false ->
  exists s',
    spawn_command s p l = (Fail PtyError, s', None) /\
    fd_lookup (sys_fds s') (sys_next_fd s) = Some (PtyMaster (sys_next_pty s)) /\
    fd_lookup (sys_fds s') (sys_next_fd s + 1) = Some (PtySlave (sys_next_pty s)).
Proof.
  intros Hl Hp Hnul.
  unfold spawn_command, builder_new, path_to_cstring, cstring_new. rewrite Hp. cbn [obind].
  unfold builder_args. rewrite cstr_args_ok by exact Hnul. cbn [obind].
  unfold spawn, openpty. rewrite Hl. cbn [sys_ptys_left].
  eexists. split; [reflexivity|]. cbn [sys_fds fd_lookup]. zsimpl. split; reflexivity.
Qed.

Lemma spawn_second_pty_failure_leaks_witness :
  let s1 := {| sys_fds := sys_fds demo_sys; sys_next_fd := 3; sys_next_pty := 0;
               sys_ptys_left := 1; sys_fork_ok := true; sys_next_pid := 100;
               sys_exes := sys_exes demo_sys |} in
  (sys_ptys_left s1 = 1%nat /\ has_nul "/usr/bin/task" = false /\ existsb has_nul ["list"] = false) /\
  exists s',
    spawn_command s1 "/usr/bin/task" ["list"] = (Fail PtyError, s', None) /\
    fd_lookup (sys_fds s') 3 = Some (PtyMaster 0) /\
    fd_lookup (sys_fds s') 4 = Some (PtySlave 0).
Proof.
  intros s1. split; [repeat split; reflexivity|].
  apply (spawn_second_pty_failure_leaks s1); reflexivity.
Defined.

Theorem spawn_fork_failure_leaks (s : Sys) (p : string) (l : list string) :
  (2 <= sys_ptys_left s)%nat -> sys_fork_ok s = false ->
  has_nul p = false -> existsb has_nul l = false ->
  exists s',
    spawn_command s p l = (Fail ForkError, s', None) /\
    fd_lookup (sys_fds s') (sys_next_fd s) = Some (PtyMaster (sys_next_pty s)) /\
    fd_lookup (sys_fds s') (sys_next_fd s + 1) = Some (PtySlave (sys_next_pty s)) /\
    fd_lookup (sys_fds s') (sys_next_fd s + 2) = Some (PtyMaster (S (sys_next_pty s))) /\
    fd_lookup (sys_fds s') (sys_next_fd s + 2 + 1) = Some (PtySlave (S (sys_next_pty s))).
Proof.
  intros Hl Hf Hp Hnul.
  unfold spawn_command, builder_new, path_to_cstring, cstring_new. rewrite Hp. cbn [obind].
  unfold builder_args. rewrite cstr_args_ok by exact Hnul. cbn [obind].
  unfold spawn, openpty.
  destruct (sys_ptys_left s) as [|[|avail]]; [lia | lia |].
  cbn [sys_ptys_left sys_fork_ok sys_next_fd sys_next_pty]. rewrite Hf. cbn [negb].
  eexists. split; [reflexivity|]. cbn [sys_fds fd_lookup]. zsimpl.
  repeat split; reflexivity.
Qed.

Lemma spawn_fork_failure_leaks_witness :
  let s1 := {| sys_fds := sys_fds demo_sys; sys_next_fd := 3; sys_next_pty := 0;
               sys_ptys_left := 4; sys_fork_ok := false; sys_next_pid := 100;
               sys_exes := sys_exes demo_sys |} in
  ((2 <= sys_ptys_left s1)%nat /\ sys_fork_ok s1 = false /\
   has_nul "/usr/bin/task" = false /\ existsb has_nul ["list"] = false) /\
  exists s',
    spawn_command s1 "/usr/bin/task" ["list"] = (Fail ForkError, s', None) /\
    fd_lookup (sys_fds s') 3 = Some (PtyMaster 0) /\
    fd_lookup (sys_fds s') 4 = Some (PtySlave 0) /\
    fd_lookup (sys_fds s') 5 = Some (PtyMaster 1) /\
    fd_lookup (sys_fds s') 6 = Some (PtySlave 1).
Proof.
  intros s1. split; [repeat split; try reflexivity; cbn; lia|].
  apply (spawn_fork_failure_leaks s1); [cbn; lia | reflexivity | reflexivity | reflexivity].
Defined.

(** [XCommandBuilder::args] replaces the arguments set before it: after
    a successful [arg(a)] or [args(l1)], a call [args(l)] gives the same
    result (builder or error) as [args(l)] on the earlier builder. *)
Theorem builder_args_replaces (b : XCommandBuilder) (a : string) (l1 l : list string) :
  has_nul a = false -> existsb has_nul l1 = false ->
  (b' <- builder_arg b a ;; builder_args b' l) = builder_args b l /\
  (b' <- builder_args b l1 ;; builder_args b' l) = builder_args b l.
Proof.
  intros Ha Hl1. unfold builder_arg, cstring_new. rewrite Ha. cbn [obind].
  split.
  - unfold builder_args. destruct (cstr_args l); reflexivity.
  - unfold builder_args. rewrite (cstr_args_ok l1 Hl1). cbn [obind b_command b_env].
    destruct (cstr_args l); reflexivity.
Qed.

Lemma builder_args_replaces_witness :
  (has_nul "-v" = false /\ existsb has_nul ["a"; "b"] = false) /\
  ((b' <- builder_arg {| b_command := "/usr/bin/task"; b_args := ["x"]; b_env := [] |} "-v" ;;
    builder_args b' ["list"]) =
   builder_args {| b_command := "/usr/bin/task"; b_args := ["x"]; b_env := [] |} ["list"] /\
   (b' <- builder_args {| b_command := "/usr/bin/task"; b_args := ["x"]; b_env := [] |} ["a"; "b"] ;;
    builder_args b' ["list"]) =
   builder_args {| b_command := "/usr/bin/task"; b_args := ["x"]; b_env := [] |} ["list"]).
Proof.
  split; [split; reflexivity|].
  apply builder_args_replaces; reflexivity.
Defined.

(** Arguments are converted to NUL-free C strings when they are given to
    the builder ([arg] / [args]), which returns the CString error for an
    interior NUL: the caller gets it before [spawn] runs, with no pty
    allocated, no fork and the system unchanged.  [spawn] itself has no
    encoding-failure path. *)
Theorem args_encoded_before_spawn (s : Sys) (p : string) (l : list string) (b : XCommandBuilder) :
  has_nul p = false ->
  (forall a, has_nul a = true -> builder_arg b a = Fail (CStringError a)) /\
  (existsb has_nul l = true ->
     exists a, has_nul a = true /\ spawn_command s p l = (Fail (CStringError a), s, None)) /\
  (existsb has_nul l = false ->
     forall a, fst (fst (spawn_command s p l)) <> Fail (CStringError a)).
Proof.
  intros Hp; split; [|split].
  - intros a Ha; unfold builder_arg, cstring_new; rewrite Ha; reflexivity.
  - intros Hl; destruct (cstr_args_nul l Hl) as [a [Ha E]].
    exists a; split; [exact Ha|].
    unfold spawn_command, builder_new, path_to_cstring, cstring_new; rewrite Hp; simpl.
    unfold builder_args; rewrite E; reflexivity.
  - intros Hl a.
    unfold spawn_command, builder_new, path_to_cstring, cstring_new; rewrite Hp; simpl.
    unfold builder_args; rewrite (cstr_args_ok l Hl); simpl.
    apply spawn_no_cstring_error.
Qed.

Lemma args_encoded_before_spawn_witness :
  has_nul "/usr/bin/task"%string = false /\
  exists a, has_nul a = true /\
    spawn_command demo_sys "/usr/bin/task"%string ["ok"%string; String Ascii.zero "x"]
    = (Fail (CStringError a), demo_sys, None).
Proof.
  split; [reflexivity|].
  apply (proj1 (proj2 (args_encoded_before_spawn demo_sys "/usr/bin/task"%string
                          ["ok"%string; String Ascii.zero "x"]
                          {| b_command := "/usr/bin/task"; b_args := []; b_env := [] |}
                          eq_refl))).
  reflexivity.
Defined.

End SpawnFacts.
